(** * DurableBuffer: the file-backed message queue of receptor

    A shallow embedding of [receptor/buffers/file.py].  The buffer keeps an
    [asyncio.Queue] of item descriptors (Python dicts), two events that
    record whether the manifest on disk lags the queue, a readiness event
    and a lock shared by the manifest writer and the expiration sweep.

    Coroutines are functions from the state of the world to an outcome:
    they finish with a value, raise, or suspend on a gate that is closed.
    A coroutine runs uninterrupted from one closed gate to the next, as the
    single-threaded event loop runs it; what the environment decides (the
    clock, the uuid drawn, whether a file operation fails) is an argument
    of the call. *)

From Stdlib Require Import ZArith Ascii String List Bool Lia.
From Stdlib.Strings Require Import Byte.
From stdpp Require Import base option list strings gmap.

Local Open Scope Z_scope.

(** ** Python values, descriptors and exceptions *)

(** The values a descriptor field can hold.  [PDatetime] counts the
    microseconds of a naive [datetime.datetime]. *)
Inductive pyval : Type :=
| PStr (s : string)
| PDatetime (t : Z)
| PInt (n : Z)
| PNone.

(** An item descriptor is a dict; [put] builds it with the keys ["path"]
    and ["expire_time"], [put_ident] accepts whatever the caller passes. *)
Abbreviation item := (gmap string pyval).

Inductive exn : Type :=
| FileNotFoundError
| OSError (errno : Z)
| JSONDecodeError
| TypeError
| KeyError (k : string)
| AttributeError (name : string)
| UnicodeDecodeError
| OtherException (name : string)
| BaseExceptionOnly (name : string).

(** The classes named in the [except] clauses of the module. *)
Inductive exn_class : Type :=
| cFileNotFoundError
| cJSONDecodeError
| cTypeError
| cKeyError
| cException.

(** [isinstance e c] along Python's hierarchy: everything but the direct
    children of [BaseException] (KeyboardInterrupt, SystemExit, ...) is an
    [Exception]. *)
Definition isinstance (e : exn) (c : exn_class) : bool :=
  match c, e with
  | cFileNotFoundError, FileNotFoundError => true
  | cJSONDecodeError, JSONDecodeError => true
  | cTypeError, TypeError => true
  | cKeyError, KeyError _ => true
  | cException, BaseExceptionOnly _ => false
  | cException, _ => true
  | _, _ => false
  end.

Inductive result (A : Type) : Type :=
| Ok (a : A)
| Err (e : exn).
Arguments Ok {A} a.
Arguments Err {A} e.

(** [framed_message] is either [bytes] or an iterable of chunks. *)
Inductive payload : Type :=
| Bytes (b : list byte)
| Chunks (cs : list (list byte)).

Definition payload_bytes (m : payload) : list byte :=
  match m with
  | Bytes b => b
  | Chunks cs => concat cs
  end.

(** ** Logging *)

Inductive level : Type := DEBUG | INFO | ERROR.

Inductive logarg : Type :=
| AStr (s : string)
| AVal (v : pyval)
| AItem (i : item).

Record log_record : Type := LogRecord {
  lvl : level;
  fmt : string;
  arg : logarg;
  exc_info : option exn
}.

(** ** The state of the world *)

Record world : Type := World {
  q : list item;                    (* self.q, oldest descriptor first *)
  _manifest_dirty : bool;           (* asyncio.Event *)
  _manifest_clean : bool;           (* asyncio.Event *)
  ready : bool;                     (* asyncio.Event *)
  _manifest_lock : bool;            (* asyncio.Lock, true while held *)
  writer_task : bool;               (* manifest_writer has been created *)
  files : gmap string (list byte);  (* regular files by path *)
  log : list log_record             (* records emitted, oldest first *)
}.

Definition set_q (l : list item) (w : world) : world :=
  World l (_manifest_dirty w) (_manifest_clean w) (ready w)
        (_manifest_lock w) (writer_task w) (files w) (log w).

Definition set_events (d c : bool) (w : world) : world :=
  World (q w) d c (ready w) (_manifest_lock w) (writer_task w) (files w) (log w).

Definition set_ready (b : bool) (w : world) : world :=
  World (q w) (_manifest_dirty w) (_manifest_clean w) b
        (_manifest_lock w) (writer_task w) (files w) (log w).

Definition set_lock (b : bool) (w : world) : world :=
  World (q w) (_manifest_dirty w) (_manifest_clean w) (ready w)
        b (writer_task w) (files w) (log w).

Definition set_writer_task (b : bool) (w : world) : world :=
  World (q w) (_manifest_dirty w) (_manifest_clean w) (ready w)
        (_manifest_lock w) b (files w) (log w).

Definition set_files (fs : gmap string (list byte)) (w : world) : world :=
  World (q w) (_manifest_dirty w) (_manifest_clean w) (ready w)
        (_manifest_lock w) (writer_task w) fs (log w).

Definition add_log (r : log_record) (w : world) : world :=
  World (q w) (_manifest_dirty w) (_manifest_clean w) (ready w)
        (_manifest_lock w) (writer_task w) (files w) (log w ++ [r]).

(** ** Coroutines *)

(** Where a coroutine can be parked. *)
Inductive gate : Type :=
| ReadyWait        (* await self.ready.wait() *)
| QueueGet         (* await self.q.get() on an empty queue *)
| DirtyWait        (* await self._manifest_dirty.wait() *)
| LockAcquire.     (* async with self._manifest_lock *)

Inductive outcome (A : Type) : Type :=
| Done (a : A) (w : world)
| Raised (e : exn) (w : world)
| Blocked (g : gate) (w : world).
Arguments Done {A} a w.
Arguments Raised {A} e w.
Arguments Blocked {A} g w.

Definition coro (A : Type) : Type := world -> outcome A.

Definition world_of {A} (o : outcome A) : world :=
  match o with
  | Done _ w | Raised _ w | Blocked _ w => w
  end.

Definition ret {A} (a : A) : coro A := fun w => Done a w.

Definition bind {A B} (c : coro A) (k : A -> coro B) : coro B :=
  fun w =>
    match c w with
    | Done a w' => k a w'
    | Raised e w' => Raised e w'
    | Blocked g w' => Blocked g w'
    end.

Definition raise {A} (e : exn) : coro A := fun w => Raised e w.

Declare Scope coro_scope.
Delimit Scope coro_scope with coro.
Bind Scope coro_scope with coro.
Notation "'let*' x ':=' c 'in' k" := (bind c (fun x => k))
  (at level 10, x name, c at level 100, k at level 200) : coro_scope.
Notation "c '>>' k" := (bind c (fun _ => k))
  (at level 100, k at level 200, right associativity) : coro_scope.
Local Open Scope coro_scope.

Definition lift {A} (r : result A) : coro A :=
  match r with
  | Ok a => ret a
  | Err e => raise e
  end.

(** [await event.wait()]: go on if the event is set, park otherwise. *)
Definition wait (g : gate) (flag : world -> bool) : coro unit :=
  fun w => if flag w then Done tt w else Blocked g w.

(** [try: body / except ...: handler]; [handler e] is [None] when no
    clause matches [e], which then propagates. *)
Definition try_except {A} (body : coro A) (handler : exn -> option (coro A))
  : coro A :=
  fun w =>
    match body w with
    | Raised e w' =>
        match handler e with
        | Some h => h w'
        | None => Raised e w'
        end
    | o => o
    end.

(** [try: body / except ...: handler / else: orelse]: the [else] suite
    runs outside the reach of the handlers. *)
Definition try_except_else {A B} (body : coro A)
    (handler : exn -> option (coro B)) (orelse : A -> coro B) : coro B :=
  fun w =>
    match body w with
    | Done a w' => orelse a w'
    | Raised e w' =>
        match handler e with
        | Some h => h w'
        | None => Raised e w'
        end
    | Blocked g w' => Blocked g w'
    end.

(** [try: body / finally: return v]: a [return] in the [finally] suite
    replaces the value the body returned and drops any exception in
    flight. *)
Definition try_finally_return {A B} (body : coro A) (v : B) : coro B :=
  fun w =>
    match body w with
    | Done _ w' => Done v w'
    | Raised _ w' => Done v w'
    | Blocked g w' => Blocked g w'
    end.

(** Calling an [async def] builds a coroutine object and runs nothing of
    its body; the body runs when the object is awaited.  A call whose
    result is dropped is therefore a no-op. *)
Definition call_without_await {A} (c : coro A) : coro unit := ret tt.

(** [async with self._manifest_lock: body]. *)
Definition async_with_lock {A} (body : coro A) : coro A :=
  fun w =>
    if _manifest_lock w then Blocked LockAcquire w
    else
      match body (set_lock true w) with
      | Done a w' => Done a (set_lock false w')
      | Raised e w' => Raised e (set_lock false w')
      | Blocked g w' => Blocked g w'
      end.

Definition logger (l : level) (f : string) (a : logarg) (e : option exn)
  : coro unit :=
  fun w => Done tt (add_log (LogRecord l f a e) w).

(** ** Paths *)

Definition startswith_sep (s : string) : bool :=
  match s with
  | String c _ => Ascii.eqb c "/"%char
  | EmptyString => false
  end.

Fixpoint endswith_sep (s : string) : bool :=
  match s with
  | EmptyString => false
  | String c EmptyString => Ascii.eqb c "/"%char
  | String _ s' => endswith_sep s'
  end.

(** [posixpath.join a b]. *)
Definition path_join (a b : string) : string :=
  if startswith_sep b then b
  else if (String.eqb a "" || endswith_sep a)%bool then a +:+ b
  else a +:+ "/" +:+ b.

(** ** Collaborators outside the module *)

(** Text on disk.  A Python [str] is held as the string of the bytes of
    its UTF-8 encoding, the encoding a file opened in text mode reads and
    writes.  [utf8_valid] is the well-formedness test of the decoder: one
    byte below 0x80, or a lead byte 0xC2..0xF4 followed by the continuation
    bytes the standard allows for it (no overlong form, no surrogate,
    nothing above U+10FFFF). *)
Definition byte_in (lo hi : N) (b : byte) : bool :=
  ((lo <=? Byte.to_N b)%N && (Byte.to_N b <=? hi)%N)%bool.

Definition continuation (b : byte) : bool := byte_in 128 191 b.

(** The second byte of a three-byte form, by its lead. *)
Definition second_of_three (b0 b1 : byte) : bool :=
  if byte_in 224 224 b0 then byte_in 160 191 b1
  else if byte_in 237 237 b0 then byte_in 128 159 b1
  else continuation b1.

(** The second byte of a four-byte form, by its lead. *)
Definition second_of_four (b0 b1 : byte) : bool :=
  if byte_in 240 240 b0 then byte_in 144 191 b1
  else if byte_in 244 244 b0 then byte_in 128 143 b1
  else continuation b1.

Fixpoint utf8_valid (l : list byte) : bool :=
  match l with
  | [] => true
  | b0 :: l1 =>
      if byte_in 0 127 b0 then utf8_valid l1
      else
        match l1 with
        | [] => false
        | b1 :: l2 =>
            if byte_in 194 223 b0 then (continuation b1 && utf8_valid l2)%bool
            else if byte_in 224 239 b0 then
              match l2 with
              | b2 :: l3 =>
                  (second_of_three b0 b1 && continuation b2
                   && utf8_valid l3)%bool
              | [] => false
              end
            else if byte_in 240 244 b0 then
              match l2 with
              | b2 :: b3 :: l4 =>
                  (second_of_four b0 b1 && continuation b2
                   && continuation b3 && utf8_valid l4)%bool
              | _ => false
              end
            else false
        end
  end.

(** Modelled from the spec: the [serde] module imported as [json] is not
    part of the sources.  It is the manifest codec, which "encodes/decodes
    the list of pending item descriptors to/from a textual representation";
    either direction may raise.  What [dumps] returns is a [str], so the
    string that stands for it is well-formed UTF-8. *)
Class Serde : Type := {
  dumps : list item -> result string;
  loads : string -> result (list item);
  dumps_text : forall l s,
    dumps l = Ok s -> utf8_valid (list_byte_of_string s) = true
}.

(** What goes wrong with a file that is opened and then written: the open
    fails, or the write fails after [written] bytes reached the file. *)
Inductive fault : Type :=
| OpenFails (e : exn)
| WriteFails (e : exn) (written : nat).

Definition fault_exn (f : fault) : exn :=
  match f with
  | OpenFails e => e
  | WriteFails e _ => e
  end.

(** [open(path, "wb")]: creates the file or truncates it. *)
Definition open_w (path : string) (f : option fault) : coro unit :=
  fun w =>
    match f with
    | Some (OpenFails e) => Raised e w
    | _ => Done tt (set_files (<[path := []]> (files w)) w)
    end.

(** [fp.write(data)] / [fp.writelines(chunks)] on a file opened by
    [open_w]. *)
Definition fp_write (path : string) (data : list byte) (f : option fault)
  : coro unit :=
  fun w =>
    match f with
    | Some (WriteFails e n) =>
        Raised e (set_files (<[path := take n data]> (files w)) w)
    | _ => Done tt (set_files (<[path := data]> (files w)) w)
    end.

(** Modelled from the spec: [fileio.File] is not part of the sources.  The
    executor contract has it "open+read+close a manifest" as one unit of
    blocking work that returns "completion or failure"; [rd] is the failure
    the environment injects, and a missing file is [FileNotFoundError].
    The file is opened with mode ["r"], in text mode: [fp.read()] decodes
    the bytes and raises [UnicodeDecodeError] on bytes that are no text. *)
Definition File_read (path : string) (rd : option exn) : coro string :=
  fun w =>
    match rd with
    | Some e => Raised e w
    | None =>
        match files w !! path with
        | Some b =>
            if utf8_valid b then Done (string_of_list_byte b) w
            else Raised UnicodeDecodeError w
        | None => Raised FileNotFoundError w
        end
    end.

(** Modelled from the spec: [fileio.File] again, opened with mode ["w"].
    Entering the [async with] opens the manifest as the builtin [open]
    does, [fp.write] writes the text; the executor reports "completion or
    failure" of each. *)
Definition File_enter_w (path : string) (f : option fault) : coro unit :=
  open_w path f.

Definition File_write (path : string) (data : string) (f : option fault)
  : coro unit :=
  fp_write path (list_byte_of_string data) f.

(** Modelled from the spec: [fileio.Deferrer.defer] is not part of the
    sources.  It "consumes a unit of blocking work ... and returns
    completion or failure": the job runs in one piece and its exception, if
    any, surfaces at the [await].  The job is run within the turn of the
    caller: what other coroutines do while the caller is suspended at the
    [await] is not part of a run. *)
Definition defer {A} (job : coro A) : coro A := job.

(** ** The buffer *)

(** The attributes [__init__] fixes for the life of the instance. *)
Record DurableBuffer : Type := {
  _base_path : string;     (* os.path.join(os.path.expanduser(dir_)) *)
  key : string;
  _write_time : Z
}.

Definition _message_path (self : DurableBuffer) : string :=
  path_join (_base_path self) "messages".

Definition _manifest_path (self : DurableBuffer) : string :=
  path_join (_base_path self) ("manifest-" +:+ key self).

(** The names [__init__] binds on the instance, and the methods of the
    class: what [self.<name>] resolves. *)
Definition instance_attributes : list string :=
  ["_base_path"; "_message_path"; "_manifest_path"; "_loop"; "q";
   "deferrer"; "_manifest_lock"; "_manifest_dirty"; "_manifest_clean";
   "_write_time"; "ready"]%string.

Definition class_attributes : list string :=
  ["clean"; "dirty"; "start_manifest"; "put"; "put_ident"; "get";
   "_read_manifest"; "_remove_path"; "is_expired"; "expire"; "expire_all";
   "manifest_writer"]%string.

Definition getattr (name : string) : coro unit :=
  if existsb (String.eqb name) (instance_attributes ++ class_attributes)
  then ret tt
  else raise (AttributeError name).

(** The world right after [__init__], over the files already on disk: an
    empty queue, no event set, the lock free.  [__init__] also schedules
    [start_manifest]. *)
Definition __init__ (fs : gmap string (list byte)) : world :=
  World [] false false false false false fs [].

Definition clean : coro unit :=
  fun w => Done tt (set_events false true w).

Definition dirty : coro unit :=
  fun w => Done tt (set_events true false w).

(** [await self.q.put(x)]: the queue is unbounded, so this never parks. *)
Definition q_put (x : item) : coro unit :=
  fun w => Done tt (set_q (q w ++ [x]) w).

Fixpoint for_each {A} (l : list A) (body : A -> coro unit) : coro unit :=
  match l with
  | [] => ret tt
  | x :: l' => body x >> for_each l' body
  end.

Definition five_minutes : Z := 5 * 60 * 1000000.

Definition getitem (d : item) (k : string) : coro pyval :=
  match d !! k with
  | Some v => ret v
  | None => raise (KeyError k)
  end.

(** [v < now] for [now] a datetime: only a datetime compares. *)
Definition lt_datetime (v : pyval) (now : Z) : coro bool :=
  match v with
  | PDatetime t => ret (t <? now)
  | _ => raise TypeError
  end.

Definition is_expired (now : Z) (it : item) : coro bool :=
  let* v := getitem it "expire_time" in
  lt_datetime v now.

(** [_remove_path] over the regular files the world tracks, with an
    [os.remove] that goes through; a path that is not a string is taken
    as a [TypeError].  No method reaches it: see [expire]. *)
Definition _remove_path (path : pyval) : coro unit :=
  match path with
  | PStr p =>
      fun w =>
        match files w !! p with
        | Some _ => Done tt (set_files (delete p (files w)) w)
        | None => logger INFO "Can't remove {}, doesn't exist" (AStr p) None w
        end
  | _ => raise TypeError
  end.

Definition expire (it : item) : coro unit :=
  let* path := getitem it "path" in
  logger INFO "Expiring message %s" (AVal path) None >>
  getattr "_deferrer" >>
  defer (_remove_path path).

Section Methods.
Context {json : Serde} (self : DurableBuffer).

Definition _read_manifest (rd : option exn) : coro (list item) :=
  try_except_else
    (File_read (_manifest_path self) rd)
    (fun e => if isinstance e cFileNotFoundError then Some (ret []) else None)
    (fun data =>
       try_finally_return
         (try_except
            (let* l := lift (loads data) in ret (Some l))
            (fun e =>
               if isinstance e cJSONDecodeError then
                 Some (logger ERROR "failed to decode manifest: %s"
                              (AStr data) None >> ret None)
               else if isinstance e cException then
                 Some (logger ERROR "Unknown failure in decoding manifest: %s"
                              (AStr data) (Some e) >> ret None)
               else None))
         []).

(** [os.makedirs] only touches directories, which [files] does not
    track, and whatever it raises is dropped by [except Exception: pass]. *)
Definition start_manifest (rd : option exn) : coro unit :=
  let* loaded_items := _read_manifest rd in
  for_each loaded_items q_put >>
  (fun w => Done tt (set_ready true w)) >>
  (fun w => Done tt (set_writer_task true w)).

Definition put_ident (ident : item) : coro unit :=
  q_put ident >>
  dirty.

(** The job [put] hands to the executor. *)
Definition _f (path : string) (framed_message : payload) (f : option fault)
  : coro unit :=
  open_w path f >>
  fp_write path (payload_bytes framed_message) f.

Definition new_item (u : string) (now : Z) : item :=
  {[ "path" := PStr (path_join (_message_path self) u);
     "expire_time" := PDatetime (now + five_minutes) ]}.

(** [u] is [str(uuid.uuid4())], [now] is [datetime.datetime.utcnow()]. *)
Definition put (u : string) (now : Z) (framed_message : payload)
    (f : option fault) : coro unit :=
  wait ReadyWait ready >>
  let path := path_join (_message_path self) u in
  let it := new_item u now in
  getattr "deferrer" >>
  defer (_f path framed_message f) >>
  put_ident it.

(** What one turn of the [while True] of [get] decides. *)
Inductive turn : Type :=
| Continue
| Return (it : item).

(** The loop of [get] over the descriptors waiting in the queue; with
    none left, [self.q.get()] parks the caller.  [now] is the clock read
    by [is_expired]. *)
Fixpoint get_loop (now : Z) (pending : list item) : coro item :=
  match pending with
  | [] => fun w => Blocked QueueGet w
  | it :: rest =>
      (fun w => Done tt (set_q rest w)) >>
      dirty >>
      let* t :=
        try_except
          (let* b := is_expired now it in
           if b : bool then call_without_await (expire it) >> ret Continue
           else ret (Return it))
          (fun e =>
             if (isinstance e cTypeError || isinstance e cKeyError)%bool then
               Some (logger DEBUG
                       "Something bad was in the durable buffer manifest: %s"
                       (AItem it) (Some e) >> ret Continue)
             else None) in
      match t with
      | Return x => ret x
      | Continue => get_loop now rest
      end
  end.

Definition get (now : Z) : coro item :=
  wait ReadyWait ready >>
  (fun w => get_loop now (q w) w).

(** The [while old.qsize() > 0] loop of [expire_all]. *)
Fixpoint sweep (now : Z) (old : list item) : coro unit :=
  match old with
  | [] => ret tt
  | it :: old' =>
      (let* b := is_expired now it in
       if b : bool then expire it else q_put it) >>
      sweep now old'
  end.

(** [old, self.q = self.q, asyncio.Queue()] is the swap to an empty
    queue.  The world holds the descriptors of the queue [self.q] names;
    that the new queue is another object than the old one, on which a
    [get] may still be parked, is not something a list shows. *)
Definition expire_all (now : Z) : coro unit :=
  async_with_lock
    (let* old := (fun w => Done (q w) (set_q [] w)) in
     sweep now old >>
     dirty).

(** One turn of the [while True] of [manifest_writer], up to the
    [asyncio.sleep] that ends it.  [f] is what goes wrong with the
    manifest file in this turn. *)
Definition manifest_writer_cycle (f : option fault) : coro unit :=
  wait DirtyWait _manifest_dirty >>
  async_with_lock
    (try_except
       (File_enter_w (_manifest_path self) f >>
        let* snapshot := (fun w => Done (q w) w) in
        let* data := lift (dumps snapshot) in
        File_write (_manifest_path self) data f >>
        clean)
       (fun e =>
          if isinstance e cException then
            Some (logger ERROR "Failed to write manifest for %s"
                         (AStr (_manifest_path self)) (Some e))
          else None)).

(** The writer over a script of turns, one entry per turn; it stops when
    a turn raises or parks. *)
Fixpoint manifest_writer (script : list (option fault)) : coro unit :=
  match script with
  | [] => ret tt
  | f :: script' => manifest_writer_cycle f >> manifest_writer script'
  end.

End Methods.

(** ** Sequences of calls *)

(** The world a [put] whose write succeeds leaves behind. *)
Definition after_put (self : DurableBuffer) (u : string) (now : Z)
    (m : payload) (w : world) : world :=
  let path := path_join (_message_path self) u in
  set_events true false
    (set_q (q w ++ [new_item self u now])
       (set_files (<[path := payload_bytes m]> (<[path := []]> (files w))) w)).

(** The world after [get] took the head of the queue and called
    [dirty]. *)
Definition popped (rest : list item) (w : world) : world :=
  set_events true false (set_q rest w).

(** What one [put] is called with and what the environment hands it. *)
Record put_request : Type := {
  req_uuid : string;
  req_now : Z;
  req_message : payload
}.

Definition req_path (self : DurableBuffer) (r : put_request) : string :=
  path_join (_message_path self) (req_uuid r).

Definition req_item (self : DurableBuffer) (r : put_request) : item :=
  new_item self (req_uuid r) (req_now r).

(** The puts of [reqs] one after the other, every write succeeding. *)
Definition put_all (self : DurableBuffer) (reqs : list put_request)
  : coro unit :=
  for_each reqs
    (fun r => put self (req_uuid r) (req_now r) (req_message r) None).

(** One [get] per clock reading, collecting what they return. *)
Fixpoint get_all (times : list Z) : coro (list item) :=
  match times with
  | [] => ret []
  | t :: ts =>
      let* x := get t in
      let* xs := get_all ts in
      ret (x :: xs)
  end.

(** ** Sample data *)

Definition path_of (it : item) : string :=
  match it !! "path"%string with
  | Some (PStr p) => p
  | _ => ""
  end.

(** The text of a string when it is one, the error of the encoder
    otherwise. *)
Definition as_text (s : string) : result string :=
  if utf8_valid (list_byte_of_string s) then Ok s
  else Err (OtherException "UnicodeEncodeError").

(** A codec that writes the paths one per line and reads back nothing but
    the empty manifest. *)
Definition lines_codec : Serde := {|
  dumps := fun l =>
    as_text (String.concat (String "010"%char "") (map path_of l));
  loads := fun s => if String.eqb s "" then Ok [] else Err JSONDecodeError;
  dumps_text := ltac:(
    intros l s; unfold as_text;
    destruct (utf8_valid
                (list_byte_of_string
                   (String.concat (String "010"%char "") (map path_of l))))
      eqn:E;
    intros H; [injection H as <-; exact E | discriminate H])
|}.

(** A codec for the manifest of a queue that holds [d] alone. *)
Definition one_item_codec (d : item) : Serde := {|
  dumps := fun _ => Ok "[item]"%string;
  loads := fun _ => Ok [d];
  dumps_text := ltac:(intros l s H; injection H as <-; reflexivity)
|}.

Definition sample_buffer : DurableBuffer := {|
  _base_path := "/var/receptor";
  key := "peer";
  _write_time := 1
|}.

Definition sample_item (p : string) (t : Z) : item :=
  {[ "path" := PStr p; "expire_time" := PDatetime t ]}.

(** A started buffer over [fs] with [l] queued. *)
Definition started (l : list item) (d c : bool) (fs : gmap string (list byte))
  : world :=
  World l d c true false true fs [].

Definition file_a : string := "/var/receptor/messages/a".
Definition file_b : string := "/var/receptor/messages/b".
Definition file_c : string := "/var/receptor/messages/c".

Definition three_files : gmap string (list byte) :=
  {[ file_a := [x61]; file_b := [x62]; file_c := [x63] ]}.

(** At clock 50: an expired descriptor ahead of a live one. *)
Definition expired_then_live : world :=
  started [sample_item file_a 10; sample_item file_b 100] false true
          three_files.

(** At clock 50: a live descriptor, an expired one, a live one. *)
Definition mixed_queue : world :=
  started [sample_item file_a 100; sample_item file_b 10;
           sample_item file_c 100] false true three_files.

(** Two puts, one of bytes and one of chunks, made at clocks 0 and 7. *)
Definition sample_requests : list put_request :=
  [ {| req_uuid := "a"; req_now := 0; req_message := Bytes [x61] |};
    {| req_uuid := "b"; req_now := 7; req_message := Chunks [[x62]; [x63]] |} ].

(** A manifest that is no manifest: the text ["{!!"]. *)
Definition garbage : list byte := [x7b; x21; x21].

(** A descriptor without expiry and one whose expiry is a string, as
    [put_ident] may be handed. *)
Definition no_expiry : item := {[ "path" := PStr file_a ]}.

Definition text_expiry : item :=
  {[ "path" := PStr file_b; "expire_time" := PStr "soon" ]}.

(** A descriptor without a path, expired at clock 50. *)
Definition no_path : item := {[ "expire_time" := PDatetime 10 ]}.

(** A descriptor is live at [now] when its expiry is a datetime that is
    not before [now], and expired when it is one before [now]. *)
Definition live (now : Z) (it : item) : Prop :=
  exists t, it !! "expire_time"%string = Some (PDatetime t) /\
            (t <? now) = false.

Definition expired (now : Z) (it : item) : Prop :=
  exists t, it !! "expire_time"%string = Some (PDatetime t) /\
            (t <? now) = true.

(** ** What the loop of [get] makes of a descriptor *)

(** The three ways [is_expired] can go on a descriptor: it answers no, it
    answers yes, or the lookup or the comparison raises. *)
Inductive verdict : Type :=
| Live
| Expired
| Malformed (e : exn).

Definition classify (now : Z) (it : item) : verdict :=
  match it !! "expire_time"%string with
  | None => Malformed (KeyError "expire_time")
  | Some (PDatetime t) => if t <? now then Expired else Live
  | Some _ => Malformed TypeError
  end.

(** The record [get] logs for a descriptor it cannot judge. *)
Definition debug_record (it : item) (e : exn) : log_record :=
  LogRecord DEBUG "Something bad was in the durable buffer manifest: %s"
            (AItem it) (Some e).

Definition dropped_log (now : Z) (it : item) : list log_record :=
  match classify now it with
  | Malformed e => [debug_record it e]
  | _ => []
  end.

Definition add_logs (rs : list log_record) (w : world) : world :=
  World (q w) (_manifest_dirty w) (_manifest_clean w) (ready w)
        (_manifest_lock w) (writer_task w) (files w) (log w ++ rs).

(** The exception [expire] ends in: the lookup of ["path"] when the
    descriptor has none, the lookup of [self._deferrer] otherwise. *)
Definition expire_exn (it : item) : exn :=
  match it !! "path"%string with
  | Some _ => AttributeError "_deferrer"
  | None => KeyError "path"
  end.

(** ** Schedules *)

(** A coroutine keeps a relation between worlds when the world it stops
    in, however it stops, is related to the world it started in. *)
Definition keeps {A} (R : world -> world -> Prop) (c : coro A) : Prop :=
  forall w, R w (world_of (c w)).

(** A coroutine that never parks. *)
Definition never_parks {A} (c : coro A) : Prop :=
  forall w g w', c w <> Blocked g w'.

(** The two events are never set together. *)
Definition events_exclusive (w : world) : Prop :=
  (_manifest_dirty w && _manifest_clean w)%bool = false.

(** What no run of a coroutine of the buffer undoes: READY and the writer
    task once set stay set, the log only grows, the two events stay
    exclusive, and a file that exists keeps existing. *)
Definition evolves (w w' : world) : Prop :=
  (ready w = true -> ready w' = true) /\
  (writer_task w = true -> writer_task w' = true) /\
  (exists l, log w' = log w ++ l) /\
  (events_exclusive w -> events_exclusive w') /\
  (forall p, is_Some (files w !! p) -> is_Some (files w' !! p)).


(** What the event loop can run on a buffer, each entry one uninterrupted
    run of a coroutine up to where it finishes, raises or parks.  The
    writer runs only once [start_manifest] has created its task. *)
Inductive call : Type :=
| CallStart (rd : option exn)
| CallPut (u : string) (now : Z) (m : payload) (f : option fault)
| CallPutIdent (d : item)
| CallGet (now : Z)
| CallExpireAll (now : Z)
| CallWriter (f : option fault).

Definition run_call {json : Serde} (self : DurableBuffer) (c : call)
    (w : world) : world :=
  match c with
  | CallStart rd => world_of (start_manifest self rd w)
  | CallPut u now m f => world_of (put self u now m f w)
  | CallPutIdent d => world_of (put_ident d w)
  | CallGet now => world_of (get now w)
  | CallExpireAll now => world_of (expire_all now w)
  | CallWriter f =>
      if writer_task w then world_of (manifest_writer_cycle self f w) else w
  end.

Definition run_calls {json : Serde} (self : DurableBuffer) (cs : list call)
    (w : world) : world :=
  foldl (fun w c => run_call self c w) w cs.

(** The uuids a schedule hands to its puts do not start with a slash. *)
Definition relative_uuids (cs : list call) : Prop :=
  Forall (fun c => match c with
                   | CallPut u _ _ _ => startswith_sep u = false
                   | _ => True
                   end) cs.

(** An observation of the world is as it was. *)
Definition same_on {A} (f : world -> A) (w w' : world) : Prop :=
  f w' = f w.

(** A schedule without a turn of the writer, and one without a start. *)
Definition is_writer (c : call) : bool :=
  match c with
  | CallWriter _ => true
  | _ => false
  end.

Definition is_start (c : call) : bool :=
  match c with
  | CallStart _ => true
  | _ => false
  end.

(** ** The registry *)

Module FileBufferManager.

(** The [defaultdict] of buffers by key.  An entry stands for the instance
    [DurableBuffer(self.path, key, self.loop)], whose [write_time] is the
    default of one second; [expanduser] is [os.path.expanduser]. *)
Record t : Type := {
  path : string;
  entries : gmap string DurableBuffer
}.

Definition new_buffer (expanduser : string -> string) (dir_ key : string)
  : DurableBuffer :=
  {| _base_path := expanduser dir_; key := key; _write_time := 1 |}.

(** [__missing__]: build the buffer, store it under the key, return it. *)
Definition __missing__ (expanduser : string -> string) (m : t) (k : string)
  : t * DurableBuffer :=
  let b := new_buffer expanduser (path m) k in
  ({| path := path m; entries := <[k := b]> (entries m) |}, b).

(** [manager[key]]: the stored buffer, or [__missing__] when there is
    none. *)
Definition __getitem__ (expanduser : string -> string) (m : t) (k : string)
  : t * DurableBuffer :=
  match entries m !! k with
  | Some b => (m, b)
  | None => __missing__ expanduser m k
  end.

(** The manager right after [FileBufferManager(path)]. *)
Definition __init__ (p : string) : t := {| path := p; entries := ∅ |}.

(** Every entry was built by [__missing__] for its key. *)
Definition built (expanduser : string -> string) (m : t) : Prop :=
  forall k b, entries m !! k = Some b ->
              b = new_buffer expanduser (path m) k.

End FileBufferManager.

(** * Properties *)

(** Projections of a world built by the setters. *)
Ltac world_simpl :=
  cbn [q _manifest_dirty _manifest_clean ready _manifest_lock writer_task
       files log set_q set_events set_ready set_lock set_writer_task
       set_files add_log popped after_put].

Section Recovery.
Context {json : Serde} (self : DurableBuffer).

(** Whatever the manifest holds and whatever the codec makes of it, a
    [_read_manifest] that returns returns the empty list: the [return] of
    the [finally] suite wins over [return json.loads(data)]. *)
Lemma _read_manifest_returns_nothing (rd : option exn) (w w' : world)
    (l : list item) :
  _read_manifest self rd w = Done l w' -> l = [].
Proof.
  unfold _read_manifest, try_except_else, File_read.
  destruct rd as [e|].
  - destruct (isinstance e cFileNotFoundError); [|discriminate].
    unfold ret. now intros [= <- _].
  - destruct (files w !! _manifest_path self) as [b|].
    + destruct (utf8_valid b); [|discriminate].
      unfold try_finally_return. cbv beta iota.
      match goal with |- context [try_except ?b ?h w] =>
        destruct (try_except b h w) end;
        try discriminate; now intros [= <- _].
    + cbn. unfold ret. now intros [= <- _].
Qed.

(** The read leaves the queue, the events and the files alone. *)
Lemma _read_manifest_frame (rd : option exn) (w : world) :
  let w' := world_of (_read_manifest self rd w) in
  q w' = q w /\ files w' = files w /\ ready w' = ready w /\
  _manifest_dirty w' = _manifest_dirty w /\
  _manifest_clean w' = _manifest_clean w.
Proof.
  unfold _read_manifest, try_except_else, File_read.
  destruct rd as [e|].
  - destruct (isinstance e cFileNotFoundError); now cbn.
  - destruct (files w !! _manifest_path self) as [b|]; [|now cbn].
    destruct (utf8_valid b); [|now cbn].
    unfold try_finally_return, try_except, bind, lift.
    destruct (loads (string_of_list_byte b)) as [l|e];
      [now cbn | destruct e; now cbn].
Qed.

(** With a manifest on disk that can be read, the read returns the empty
    list. *)
Lemma _read_manifest_present (w : world) (b : list byte) :
  files w !! _manifest_path self = Some b -> utf8_valid b = true ->
  exists w', _read_manifest self None w = Done [] w'.
Proof.
  intros Hb Hv. unfold _read_manifest, try_except_else, File_read.
  rewrite Hb, Hv. unfold try_finally_return. cbv beta iota.
  match goal with |- context [try_except ?c ?h w] =>
    destruct (try_except c h w) as [a w1|e w1|g w1] eqn:E end; eauto.
  exfalso. revert E. unfold try_except, bind, lift.
  destruct (loads (string_of_list_byte b)) as [l|e];
    [discriminate | destruct e; discriminate].
Qed.

Lemma _read_manifest_missing (w : world) :
  files w !! _manifest_path self = None ->
  _read_manifest self None w = Done [] w.
Proof.
  intros Hb. unfold _read_manifest, try_except_else, File_read.
  rewrite Hb. reflexivity.
Qed.

(** A start whose read does not raise pushes nothing. *)
Lemma start_manifest_pushes_nothing (rd : option exn) (w w' : world) :
  start_manifest self rd w = Done tt w' ->
  q w' = q w /\ ready w' = true /\ writer_task w' = true /\
  files w' = files w.
Proof.
  unfold start_manifest, bind.
  destruct (_read_manifest self rd w) as [l w1|e w1|g w1] eqn:E;
    try discriminate.
  pose proof (_read_manifest_returns_nothing _ _ _ _ E) as ->.
  pose proof (_read_manifest_frame rd w) as F. rewrite E in F. cbn in F.
  destruct F as (Fq & Ff & _).
  cbn. intros [= <-]. cbn. auto.
Qed.

(** C1.  Startup recovery over a directory whose manifest file is present
    does not push the descriptors recorded in it: for every codec and every
    manifest that is text, as every manifest the writer wrote is,
    [start_manifest] completes with the queue it started with, which after
    [__init__] is the empty queue.  The recovered queue has length 0,
    whatever number K of descriptors was flushed. *)
Theorem recovery_discards_manifest (fs : gmap string (list byte))
    (data : list byte) :
  utf8_valid data = true ->
  exists w',
    start_manifest self None
      (__init__ (<[_manifest_path self := data]> fs)) = Done tt w' /\
    q w' = [] /\ ready w' = true.
Proof.
  intros Hv. set (w := __init__ _).
  destruct (_read_manifest_present w data) as [w1 E]; [|exact Hv|].
  { subst w. cbn. apply lookup_insert_eq. }
  unfold start_manifest, bind. rewrite E. cbn.
  pose proof (_read_manifest_frame None w) as F. rewrite E in F. cbn in F.
  destruct F as (Fq & _).
  eexists. split; [reflexivity|]. cbn. rewrite Fq. auto.
Qed.

(** A read that fails with anything but [FileNotFoundError] is not
    handled: the start raises and READY is never set. *)
Lemma start_manifest_read_error (e : exn) (w : world) :
  isinstance e cFileNotFoundError = false ->
  start_manifest self (Some e) w = Raised e w.
Proof.
  intros He. unfold start_manifest, bind, _read_manifest, try_except_else,
    File_read. now rewrite He.
Qed.


(** The half of C1 that holds: without a manifest file the queue starts
    empty. *)
Lemma recovery_without_manifest (fs : gmap string (list byte)) :
  fs !! _manifest_path self = None ->
  start_manifest self None (__init__ fs)
  = Done tt (set_writer_task true (set_ready true (__init__ fs))).
Proof.
  intros Hm. unfold start_manifest, bind.
  rewrite _read_manifest_missing by exact Hm. reflexivity.
Qed.

End Recovery.

Section PutGet.
Context {json : Serde} (self : DurableBuffer).

Lemma getattr_deferrer : getattr "deferrer" = ret tt.
Proof. reflexivity. Qed.

Lemma getattr__deferrer :
  getattr "_deferrer" = raise (AttributeError "_deferrer").
Proof. reflexivity. Qed.

Lemma put_done (u : string) (now : Z) (m : payload) (w : world) :
  ready w = true ->
  put self u now m None w = Done tt (after_put self u now m w).
Proof.
  intros Hr. unfold put, bind, wait. rewrite Hr.
  rewrite getattr_deferrer. reflexivity.
Qed.

Lemma put_raises (u : string) (now : Z) (m : payload) (f : fault)
    (w : world) :
  ready w = true ->
  exists w', put self u now m (Some f) w = Raised (fault_exn f) w' /\
    q w' = q w /\ _manifest_dirty w' = _manifest_dirty w /\
    _manifest_clean w' = _manifest_clean w /\ ready w' = ready w /\
    log w' = log w.
Proof.
  intros Hr. unfold put, bind, wait. rewrite Hr.
  rewrite getattr_deferrer.
  destruct f as [e|e n]; eexists; (split; [reflexivity | now cbn]).
Qed.

Lemma put_parks (u : string) (now : Z) (m : payload) (f : option fault)
    (w : world) :
  ready w = false -> put self u now m f w = Blocked ReadyWait w.
Proof. intros Hr. unfold put, bind, wait. now rewrite Hr. Qed.

Lemma get_parks (now : Z) (w : world) :
  ready w = false -> get now w = Blocked ReadyWait w.
Proof. intros Hr. unfold get, bind, wait. now rewrite Hr. Qed.

Lemma put_ident_done (d : item) (w : world) :
  put_ident d w = Done tt (set_events true false (set_q (q w ++ [d]) w)).
Proof. reflexivity. Qed.

Lemma for_each_q_put (l : list item) (w : world) :
  for_each l q_put w = Done tt (set_q (q w ++ l) w).
Proof.
  revert w. induction l as [|x l IH]; intros w.
  - cbn. unfold ret. rewrite app_nil_r. now destruct w.
  - cbn. unfold bind, q_put. rewrite IH. cbn.
    now rewrite <- app_assoc.
Qed.

(** ** The loop of [get], one descriptor at a time *)

Lemma get_loop_live (now t : Z) (it : item) (rest : list item) (w : world) :
  it !! "expire_time"%string = Some (PDatetime t) ->
  (t <? now) = false ->
  get_loop now (it :: rest) w = Done it (popped rest w).
Proof.
  intros He Ht. cbn. unfold bind, dirty, try_except, is_expired, getitem.
  cbn. rewrite He. cbn. rewrite Ht. reflexivity.
Qed.

Lemma get_loop_expired (now t : Z) (it : item) (rest : list item)
    (w : world) :
  it !! "expire_time"%string = Some (PDatetime t) ->
  (t <? now) = true ->
  get_loop now (it :: rest) w = get_loop now rest (popped rest w).
Proof.
  intros He Ht. cbn. unfold bind, dirty, try_except, is_expired, getitem.
  cbn. rewrite He. cbn. rewrite Ht. reflexivity.
Qed.

(** The loop never touches a file: the coroutine [expire] builds is
    dropped, so nothing reaches the executor. *)
Lemma get_loop_files (now : Z) (pending : list item) (w : world) :
  files (world_of (get_loop now pending w)) = files w.
Proof.
  revert w. induction pending as [|it rest IH]; intros w; [reflexivity|].
  cbn. unfold bind, dirty, try_except, is_expired, getitem. cbn.
  destruct (it !! "expire_time"%string) as [v|]; cbn.
  - destruct v as [s|t|n|]; cbn; try (rewrite IH; reflexivity).
    destruct (t <? now); cbn; [rewrite IH|]; reflexivity.
  - rewrite IH. reflexivity.
Qed.

Lemma get_files (now : Z) (w : world) :
  files (world_of (get now w)) = files w.
Proof.
  unfold get, bind, wait. destruct (ready w); [|reflexivity].
  apply get_loop_files.
Qed.

(** The loop parks only on the empty queue. *)
Lemma get_loop_parks (now : Z) (pending : list item) (w w' : world)
    (g : gate) :
  get_loop now pending w = Blocked g w' -> g = QueueGet.
Proof.
  revert w. induction pending as [|it rest IH]; intros w.
  - cbn. now intros [= <- _].
  - cbn. unfold bind, dirty, try_except, is_expired, getitem. cbn.
    destruct (it !! "expire_time"%string) as [v|]; cbn; [|apply IH].
    destruct v as [s|t|n|]; cbn; try apply IH.
    destruct (t <? now); cbn; [apply IH|discriminate].
Qed.

End PutGet.

Section Expiration.
Context {json : Serde} (self : DurableBuffer).

Lemma expire_raises (it : item) (p : pyval) (w : world) :
  it !! "path"%string = Some p ->
  expire it w
  = Raised (AttributeError "_deferrer")
           (add_log (LogRecord INFO "Expiring message %s" (AVal p) None) w).
Proof.
  intros Hp. unfold expire, bind, getitem. rewrite Hp. reflexivity.
Qed.

Lemma sweep_live (now : Z) (pre old : list item) (w : world) :
  Forall (live now) pre ->
  sweep now (pre ++ old) w = sweep now old (set_q (q w ++ pre) w).
Proof.
  revert w. induction pre as [|it pre IH]; intros w Hl.
  - cbn. rewrite app_nil_r. now destruct w.
  - inversion Hl as [|? ? (t & He & Ht) Hl']; subst.
    cbn. unfold bind at 1. unfold is_expired, getitem, bind.
    rewrite He. cbn. rewrite Ht. unfold q_put.
    rewrite IH by exact Hl'. cbn. now rewrite <- app_assoc.
Qed.

(** The sweep stops with [AttributeError] at the first expired descriptor:
    [expire] asks for [self._deferrer], and [__init__] named the attribute
    [deferrer].  What was behind that descriptor is gone with the old
    queue. *)
Lemma sweep_raises (now : Z) (pre old : list item) (it : item) (p : pyval)
    (w : world) :
  Forall (live now) pre -> expired now it ->
  it !! "path"%string = Some p ->
  sweep now (pre ++ it :: old) w
  = Raised (AttributeError "_deferrer")
      (add_log (LogRecord INFO "Expiring message %s" (AVal p) None)
         (set_q (q w ++ pre) w)).
Proof.
  intros Hl (t & He & Ht) Hp. rewrite sweep_live by exact Hl.
  cbn. unfold bind at 1. unfold is_expired, getitem, bind.
  rewrite He. cbn. rewrite Ht.
  rewrite (expire_raises it p) by exact Hp. reflexivity.
Qed.

(** With nothing expired the sweep is the identity on the queue and the
    buffer ends dirty. *)
Lemma expire_all_nothing_expired (now : Z) (w : world) :
  _manifest_lock w = false -> Forall (live now) (q w) ->
  expire_all now w = Done tt (set_events true false w).
Proof.
  intros Hk Hl. unfold expire_all, async_with_lock. rewrite Hk.
  unfold bind at 1. unfold bind at 1.
  rewrite <- (app_nil_r (q (set_lock true w))).
  rewrite sweep_live by exact Hl. cbn.
  destruct w; cbn in *; now subst.
Qed.

End Expiration.

Section Claims.
Context {json : Serde} (self : DurableBuffer).

Lemma new_item_expire_time (u : string) (now : Z) :
  new_item self u now !! "expire_time"%string
  = Some (PDatetime (now + five_minutes)).
Proof. reflexivity. Qed.

Lemma new_item_path (u : string) (now : Z) :
  new_item self u now !! "path"%string
  = Some (PStr (path_join (_message_path self) u)).
Proof. reflexivity. Qed.

Lemma get_head_live (now : Z) (it : item) (rest : list item) (w : world) :
  ready w = true -> q w = it :: rest -> live now it ->
  get now w = Done it (popped rest w).
Proof.
  intros Hr Hq (t & He & Ht). unfold get, bind, wait. rewrite Hr, Hq.
  now apply get_loop_live with t.
Qed.

Lemma put_all_done (reqs : list put_request) (w : world) :
  ready w = true ->
  exists w1,
    put_all self reqs w = Done tt w1 /\
    q w1 = q w ++ map (req_item self) reqs /\
    ready w1 = true /\
    (forall p, p ∉ map (req_path self) reqs -> files w1 !! p = files w !! p) /\
    (NoDup (map (req_path self) reqs) ->
     Forall (fun r => files w1 !! req_path self r
                      = Some (payload_bytes (req_message r))) reqs).
Proof.
  revert w. induction reqs as [|r reqs IH]; intros w Hr.
  - exists w. cbn. rewrite app_nil_r. repeat split; auto.
  - destruct (IH (after_put self (req_uuid r) (req_now r) (req_message r) w))
      as (w1 & E & Hq & Hr1 & Hout & Hin); [exact Hr|].
    exists w1. unfold put_all in *. cbn [for_each]. unfold bind at 1.
    rewrite put_done by exact Hr. rewrite E.
    split; [reflexivity|]. split.
    { rewrite Hq. cbn. now rewrite <- app_assoc. }
    split; [exact Hr1|]. split.
    + intros p Hp. cbn in Hp. apply not_elem_of_cons in Hp as [Hne Hp].
      rewrite Hout by exact Hp. cbn. unfold req_path in Hne.
      rewrite !lookup_insert_ne by (intros Heq; now apply Hne).
      reflexivity.
    + intros Hnd. cbn in Hnd. apply NoDup_cons in Hnd as [Hnotin Hnd].
      constructor; [|now apply Hin].
      rewrite Hout by exact Hnotin. cbn. unfold req_path.
      now rewrite lookup_insert_eq.
Qed.

Lemma get_all_live (times : list Z) (its tail : list item) (w : world) :
  ready w = true -> q w = its ++ tail ->
  Forall2 live times its ->
  exists w2,
    get_all times w = Done its w2 /\ q w2 = tail /\
    files w2 = files w /\ ready w2 = true.
Proof.
  intros Hr Hq Hl. revert w Hr Hq.
  induction Hl as [|t it times its Hlive Hl IH]; intros w Hr Hq.
  - exists w. cbn in *. auto.
  - cbn [get_all]. unfold bind at 1.
    rewrite (get_head_live t it (its ++ tail)) by assumption.
    destruct (IH (popped (its ++ tail) w)) as (w2 & E & Hq2 & Hf & Hr2);
      [exact Hr | reflexivity |].
    exists w2. unfold bind at 1. rewrite E. cbn. auto.
Qed.

(** C4.  N puts followed by N gets, no descriptor expired when its get
    reads the clock: the gets return the descriptors of the puts in the
    order of the puts and empty the queue; when the uuids drawn give
    distinct paths, each path holds the payload of its put. *)
Theorem fifo_order (reqs : list put_request) (times : list Z) (w : world) :
  ready w = true -> q w = [] ->
  Forall2 (fun t r => (req_now r + five_minutes <? t) = false) times reqs ->
  exists w1 w2,
    put_all self reqs w = Done tt w1 /\
    get_all times w1 = Done (map (req_item self) reqs) w2 /\
    q w2 = [] /\
    (NoDup (map (req_path self) reqs) ->
     Forall (fun r => files w2 !! req_path self r
                      = Some (payload_bytes (req_message r))) reqs).
Proof.
  intros Hr Hq Hl.
  destruct (put_all_done reqs w Hr) as (w1 & E1 & Hq1 & Hr1 & _ & Hin).
  rewrite Hq in Hq1. cbn in Hq1.
  destruct (get_all_live times (map (req_item self) reqs) [] w1)
    as (w2 & E2 & Hq2 & Hf & _).
  - exact Hr1.
  - now rewrite app_nil_r.
  - apply Forall2_fmap_r. eapply Forall2_impl; [exact Hl|].
    intros t r Ht. exists (req_now r + five_minutes). split; [|exact Ht].
    apply new_item_expire_time.
  - exists w1, w2. repeat split; auto. now rewrite Hf.
Qed.


(** C6.  A put whose payload write fails raises the failure to its caller
    and leaves the queue, both events, the readiness and the log as they
    were. *)
Theorem put_failure_propagates (u : string) (now : Z) (m : payload)
    (f : fault) (w : world) :
  ready w = true ->
  exists w',
    put self u now m (Some f) w = Raised (fault_exn f) w' /\
    q w' = q w /\
    _manifest_dirty w' = _manifest_dirty w /\
    _manifest_clean w' = _manifest_clean w.
Proof.
  intros Hr. destruct (put_raises self u now m f w Hr)
    as (w' & E & Hq & Hd & Hc & _).
  exists w'. auto.
Qed.

Lemma flush_done (w : world) (data : string) :
  _manifest_dirty w = true -> _manifest_lock w = false ->
  dumps (q w) = Ok data ->
  manifest_writer_cycle self None w
  = Done tt (set_events false true
       (set_files (<[_manifest_path self := list_byte_of_string data]>
                     (<[_manifest_path self := []]> (files w))) w)).
Proof.
  intros Hd Hk Hs. unfold manifest_writer_cycle, bind, wait. rewrite Hd.
  unfold async_with_lock. rewrite Hk. unfold try_except.
  cbn. rewrite Hs. cbn. destruct w; cbn in *; now subst.
Qed.

Lemma flush_fails (f : fault) (w : world) :
  _manifest_dirty w = true -> _manifest_lock w = false ->
  isinstance (fault_exn f) cException = true ->
  (forall e, dumps (q w) = Err e -> isinstance e cException = true) ->
  exists fs e,
    manifest_writer_cycle self (Some f) w
    = Done tt (add_log (LogRecord ERROR "Failed to write manifest for %s"
                          (AStr (_manifest_path self)) (Some e))
                 (set_files fs w)).
Proof.
  destruct w as [q0 d c r k wt fs0 lg]. cbn [_manifest_dirty _manifest_lock q].
  intros -> -> He Hs.
  unfold manifest_writer_cycle, bind, wait, async_with_lock, try_except.
  destruct f as [e|e n]; cbn in He |- *.
  - rewrite He. now exists fs0, e.
  - destruct (dumps q0) as [data|e'] eqn:Hd; cbn.
    + rewrite He. now eexists _, e.
    + specialize (Hs e' eq_refl). cbn in Hs. rewrite Hs. now eexists _, e'.
Qed.

Lemma flush_codec_fails (w : world) (e : exn) :
  _manifest_dirty w = true -> _manifest_lock w = false ->
  dumps (q w) = Err e -> isinstance e cException = true ->
  exists fs,
    manifest_writer_cycle self None w
    = Done tt (add_log (LogRecord ERROR "Failed to write manifest for %s"
                          (AStr (_manifest_path self)) (Some e))
                 (set_files fs w)).
Proof.
  destruct w as [q0 d c r k wt fs0 lg]. cbn [_manifest_dirty _manifest_lock q].
  intros -> -> Hs He.
  unfold manifest_writer_cycle, bind, wait, async_with_lock, try_except.
  cbn. rewrite Hs. cbn. cbn in He. rewrite He. now eexists.
Qed.

(** C7.  A turn of the manifest writer in which the manifest cannot be
    written neither raises nor parks: the failure is logged as an error,
    dirty stays set and clean stays as it was, the queue and the lock are
    untouched, and the next turn, which therefore does not wait, writes the
    encoded queue and marks the buffer clean once the write goes through. *)
Theorem failed_flush_is_retried (f : fault) (w : world) :
  _manifest_dirty w = true -> _manifest_lock w = false ->
  isinstance (fault_exn f) cException = true ->
  (forall e, dumps (q w) = Err e -> isinstance e cException = true) ->
  exists w' r,
    manifest_writer_cycle self (Some f) w = Done tt w' /\
    log w' = log w ++ [r] /\ lvl r = ERROR /\ is_Some (exc_info r) /\
    _manifest_dirty w' = true /\
    _manifest_clean w' = _manifest_clean w /\
    q w' = q w /\ _manifest_lock w' = false /\
    (forall data, dumps (q w) = Ok data ->
     exists w'',
       manifest_writer_cycle self None w' = Done tt w'' /\
       File_read (_manifest_path self) None w'' = Done data w'' /\
       _manifest_dirty w'' = false /\ _manifest_clean w'' = true).
Proof.
  intros Hd Hk He Hs.
  destruct (flush_fails f w Hd Hk He Hs) as (fs & e & E).
  eexists. eexists. split; [exact E|]. cbn.
  repeat split; auto.
  intros data Hdata. eexists.
  rewrite (flush_done _ data) by (cbn; auto).
  split; [reflexivity|]. split; [|auto].
  unfold File_read. cbn. rewrite lookup_insert_eq.
  rewrite (dumps_text _ _ Hdata).
  now rewrite string_of_list_byte_of_string.
Qed.

(** Over any script of failures that are [Exception]s, with a codec that
    raises nothing worse, the writer never raises: it runs the script out or
    parks waiting for dirty. *)
Lemma manifest_writer_never_raises (script : list (option fault))
    (w : world) :
  _manifest_lock w = false ->
  Forall (fun f => match f with
                   | Some x => isinstance (fault_exn x) cException = true
                   | None => True
                   end) script ->
  (forall l e, dumps l = Err e -> isinstance e cException = true) ->
  forall e w', manifest_writer self script w <> Raised e w'.
Proof.
  intros Hk Hf Hs. revert w Hk.
  induction Hf as [|f script Hx Hf IH]; intros w Hk e w'; [discriminate|].
  cbn [manifest_writer]. unfold bind at 1.
  destruct (_manifest_dirty w) eqn:Hd.
  - destruct f as [x|].
    + destruct (flush_fails x w Hd Hk Hx (Hs (q w))) as (fs & e1 & ->).
      apply IH. exact Hk.
    + destruct (dumps (q w)) as [data|e1] eqn:Hq.
      * rewrite (flush_done w data) by assumption. apply IH. exact Hk.
      * destruct (flush_codec_fails w e1 Hd Hk Hq (Hs _ _ Hq)) as (fs & ->).
        apply IH. exact Hk.
  - unfold manifest_writer_cycle, bind, wait. rewrite Hd. discriminate.
Qed.

(** C8.  A put that completes leaves the buffer dirty and not clean; a
    flush that goes through on a dirty buffer leaves it clean and not
    dirty, the queue as it was, and the manifest file reading back as the
    encoding of that queue. *)
Theorem dirty_clean_convergence (u : string) (now : Z) (m : payload)
    (f : option fault) (w w1 wd : world) (data : string) :
  put self u now m f w = Done tt w1 ->
  _manifest_dirty wd = true -> _manifest_lock wd = false ->
  dumps (q wd) = Ok data ->
  (_manifest_dirty w1 = true /\ _manifest_clean w1 = false) /\
  exists w2,
    manifest_writer_cycle self None wd = Done tt w2 /\
    _manifest_dirty w2 = false /\ _manifest_clean w2 = true /\
    q w2 = q wd /\ dumps (q w2) = Ok data /\
    files w2 !! _manifest_path self = Some (list_byte_of_string data) /\
    File_read (_manifest_path self) None w2 = Done data w2.
Proof.
  intros Hp Hd Hk Hs. split.
  - revert Hp. unfold put, bind, wait.
    destruct (ready w); [|discriminate]. rewrite getattr_deferrer.
    destruct f as [[e|e n]|]; cbn; try discriminate; now intros [= <-].
  - eexists. rewrite (flush_done wd data) by assumption.
    split; [reflexivity|]. unfold File_read. world_simpl.
    rewrite !lookup_insert_eq. rewrite (dumps_text _ _ Hs).
    rewrite string_of_list_byte_of_string. repeat split; auto.
Qed.

(** C9.  Before READY is set a put and a get park on the readiness gate
    with the world untouched: nothing is queued, popped, written or raised.
    Once [start_manifest] has set READY the put goes through and the get no
    longer parks on the gate: it returns the head of the queue when that is
    live, and waits for a descriptor only when the queue is empty. *)
Theorem readiness_gate (u : string) (now : Z) (m : payload)
    (f : option fault) (w : world) :
  ready w = false ->
  put self u now m f w = Blocked ReadyWait w /\
  get now w = Blocked ReadyWait w /\
  forall rd w1, start_manifest self rd w = Done tt w1 ->
    put self u now m None w1 = Done tt (after_put self u now m w1) /\
    (forall g w2, get now w1 = Blocked g w2 -> g = QueueGet) /\
    (forall it rest, q w1 = it :: rest -> live now it ->
       get now w1 = Done it (popped rest w1)).
Proof.
  intros Hr. split; [now apply put_parks|]. split; [now apply get_parks|].
  intros rd w1 Hs.
  destruct (start_manifest_pushes_nothing self rd w w1 Hs) as (_ & Hr1 & _).
  split; [now apply put_done|]. split.
  - intros g w2. unfold get, bind, wait. rewrite Hr1. intros Hb.
    now apply get_loop_parks in Hb.
  - intros it rest Hq Hl. now apply get_head_live.
Qed.

(** C10.  [put_ident] has no readiness gate: in a world where
    READY is not set, where [put] parks, it puts the descriptor at the
    tail of the queue and marks the buffer dirty and not clean, with READY,
    the files and the log as they were. *)
Theorem put_ident_is_not_gated (d : item) (w : world) :
  ready w = false ->
  (forall u now m f, put self u now m f w = Blocked ReadyWait w) /\
  exists w',
    put_ident d w = Done tt w' /\
    q w' = q w ++ [d] /\
    _manifest_dirty w' = true /\ _manifest_clean w' = false /\
    ready w' = false /\ files w' = files w /\ log w' = log w.
Proof.
  intros Hr. split.
  { intros. now apply put_parks. }
  eexists. split; [apply put_ident_done|]. world_simpl.
  repeat split; auto.
Qed.

End Claims.

(** ** The claims at concrete inputs *)

(** C1 at one descriptor: the queue holds [d], the flush writes a manifest
    that decodes to [[d]], and the buffer restarted over those files comes
    up with an empty queue. *)
Example restart_loses_flushed_descriptor :
  let d := sample_item file_a 100 in
  exists w1 w2 data,
    @manifest_writer_cycle (one_item_codec d) sample_buffer None
       (started [d] true false three_files) = Done tt w1 /\
    q w1 = [d] /\
    File_read (_manifest_path sample_buffer) None w1 = Done data w1 /\
    @loads (one_item_codec d) data = Ok [d] /\
    @start_manifest (one_item_codec d) sample_buffer None
       (__init__ (files w1)) = Done tt w2 /\
    q w2 = [].
Proof.
  cbv zeta. eexists. eexists. eexists.
  split; [vm_compute; reflexivity|].
  split; [reflexivity|].
  split; [vm_compute; reflexivity|].
  split; [reflexivity|].
  split; [vm_compute; reflexivity|].
  reflexivity.
Qed.

(** C2 at clock 50, an expired descriptor ahead of a live one: [get]
    returns the live one and the queue is empty, but nothing was handed to
    the executor: the payload file of the expired descriptor is still
    there and not even the "Expiring message" record was logged. *)
Theorem get_leaves_expired_payload :
  expired 50 (sample_item file_a 10) /\
  live 50 (sample_item file_b 100) /\
  exists w',
    get 50 expired_then_live = Done (sample_item file_b 100) w' /\
    q w' = [] /\
    files w' = files expired_then_live /\
    files w' !! file_a = Some [x61] /\
    log w' = [].
Proof.
  split; [exists 10; split; reflexivity|].
  split; [exists 100; split; reflexivity|].
  eexists. split; [vm_compute; reflexivity|].
  repeat split; reflexivity.
Qed.

(** C3 at clock 50, a live, an expired and a live descriptor: [expire_all]
    raises [AttributeError] at the expired one.  The queue is left with the
    first live descriptor only, the third one is lost, no file is deleted
    and the buffer is not marked dirty. *)
Theorem expire_all_stops_at_first_expired :
  exists w',
    expire_all 50 mixed_queue = Raised (AttributeError "_deferrer") w' /\
    q w' = [sample_item file_a 100] /\
    files w' = files mixed_queue /\
    files w' !! file_b = Some [x62] /\
    _manifest_dirty w' = false /\
    _manifest_lock w' = false.
Proof.
  eexists. split; [vm_compute; reflexivity|].
  repeat split; reflexivity.
Qed.

Lemma fifo_order_witness :
  exists w1 w2,
    put_all sample_buffer sample_requests (started [] false true ∅)
    = Done tt w1 /\
    get_all [10; 300000007] w1
    = Done (map (req_item sample_buffer) sample_requests) w2 /\
    q w2 = [] /\
    (NoDup (map (req_path sample_buffer) sample_requests) ->
     Forall (fun r => files w2 !! req_path sample_buffer r
                      = Some (payload_bytes (req_message r)))
            sample_requests).
Proof.
  apply (fifo_order sample_buffer sample_requests [10; 300000007]
           (started [] false true ∅)).
  - reflexivity.
  - reflexivity.
  - repeat constructor.
Defined.



Lemma recovery_discards_manifest_witness :
  utf8_valid (list_byte_of_string "[item]") = true /\
  exists w',
    @start_manifest (one_item_codec (sample_item file_a 100)) sample_buffer
      None
      (__init__ (<[_manifest_path sample_buffer
                   := list_byte_of_string "[item]"]> ∅))
    = Done tt w' /\
    q w' = [] /\ ready w' = true.
Proof.
  split; [reflexivity|].
  apply (@recovery_discards_manifest (one_item_codec (sample_item file_a 100))
           sample_buffer ∅ (list_byte_of_string "[item]")).
  reflexivity.
Defined.

Lemma put_failure_propagates_witness :
  ready (started [] false true ∅) = true /\
  exists w',
    put sample_buffer "a" 0 (Bytes [x61; x62]) (Some (WriteFails (OSError 28) 1))
        (started [] false true ∅)
    = Raised (OSError 28) w' /\
    q w' = [] /\ _manifest_dirty w' = false /\ _manifest_clean w' = true.
Proof.
  split; [reflexivity|].
  apply (put_failure_propagates sample_buffer "a" 0 (Bytes [x61; x62])
           (WriteFails (OSError 28) 1) (started [] false true ∅)).
  reflexivity.
Defined.

Lemma failed_flush_is_retried_witness :
  let w := started [sample_item file_a 100] true false three_files in
  _manifest_dirty w = true /\ _manifest_lock w = false /\
  isinstance (fault_exn (WriteFails (OSError 28) 3)) cException = true /\
  exists w' r,
    @manifest_writer_cycle lines_codec sample_buffer
       (Some (WriteFails (OSError 28) 3)) w = Done tt w' /\
    log w' = log w ++ [r] /\ lvl r = ERROR /\ is_Some (exc_info r) /\
    _manifest_dirty w' = true /\
    _manifest_clean w' = _manifest_clean w /\
    q w' = q w /\ _manifest_lock w' = false /\
    (forall data, @dumps lines_codec (q w) = Ok data ->
     exists w'',
       @manifest_writer_cycle lines_codec sample_buffer None w'
       = Done tt w'' /\
       File_read (_manifest_path sample_buffer) None w'' = Done data w'' /\
       _manifest_dirty w'' = false /\ _manifest_clean w'' = true).
Proof.
  cbv zeta. split; [reflexivity|]. split; [reflexivity|].
  split; [reflexivity|].
  apply (@failed_flush_is_retried lines_codec sample_buffer
           (WriteFails (OSError 28) 3)
           (started [sample_item file_a 100] true false three_files)).
  - reflexivity.
  - reflexivity.
  - reflexivity.
  - intros e He. vm_compute in He. discriminate He.
Defined.

Lemma dirty_clean_convergence_witness :
  let w := started [] false true ∅ in
  let w1 := after_put sample_buffer "a" 0 (Bytes [x61]) w in
  put sample_buffer "a" 0 (Bytes [x61]) None w = Done tt w1 /\
  @dumps lines_codec (q w1) = Ok "/var/receptor/messages/a"%string /\
  (_manifest_dirty w1 = true /\ _manifest_clean w1 = false) /\
  exists w2,
    @manifest_writer_cycle lines_codec sample_buffer None w1 = Done tt w2 /\
    _manifest_dirty w2 = false /\ _manifest_clean w2 = true /\
    q w2 = q w1 /\
    @dumps lines_codec (q w2) = Ok "/var/receptor/messages/a"%string /\
    files w2 !! _manifest_path sample_buffer
    = Some (list_byte_of_string "/var/receptor/messages/a") /\
    File_read (_manifest_path sample_buffer) None w2
    = Done "/var/receptor/messages/a"%string w2.
Proof.
  cbv zeta. split; [reflexivity|]. split; [reflexivity|].
  apply (@dirty_clean_convergence lines_codec sample_buffer "a" 0
           (Bytes [x61]) None (started [] false true ∅)).
  - reflexivity.
  - reflexivity.
  - reflexivity.
  - reflexivity.
Defined.

Lemma readiness_gate_witness :
  let w := __init__ three_files in
  ready w = false /\
  put sample_buffer "a" 50 (Bytes [x61]) None w = Blocked ReadyWait w /\
  get 50 w = Blocked ReadyWait w /\
  forall rd w1, @start_manifest lines_codec sample_buffer rd w = Done tt w1 ->
    put sample_buffer "a" 50 (Bytes [x61]) None w1
    = Done tt (after_put sample_buffer "a" 50 (Bytes [x61]) w1) /\
    (forall g w2, get 50 w1 = Blocked g w2 -> g = QueueGet) /\
    (forall it rest, q w1 = it :: rest -> live 50 it ->
       get 50 w1 = Done it (popped rest w1)).
Proof.
  cbv zeta. split; [reflexivity|].
  apply (@readiness_gate lines_codec sample_buffer "a" 50 (Bytes [x61]) None
           (__init__ three_files)).
  reflexivity.
Defined.

Lemma put_ident_is_not_gated_witness :
  let w := __init__ three_files in
  let d := sample_item file_a 100 in
  ready w = false /\
  (forall u now m f, put sample_buffer u now m f w = Blocked ReadyWait w) /\
  exists w',
    put_ident d w = Done tt w' /\
    q w' = q w ++ [d] /\
    _manifest_dirty w' = true /\ _manifest_clean w' = false /\
    ready w' = false /\ files w' = files w /\ log w' = log w.
Proof.
  cbv zeta. split; [reflexivity|].
  apply (put_ident_is_not_gated sample_buffer (sample_item file_a 100)
           (__init__ three_files)).
  reflexivity.
Defined.

(** C10 does not extend to recovered descriptors: over a manifest that
    decodes to the descriptor [d0], a descriptor [d] handed to [put_ident]
    before the recovery or after it ends up alone in the queue.  No
    descriptor is recovered, so there is none for [d] to precede, follow
    or interleave with. *)
Lemma put_ident_meets_no_recovered_descriptor :
  let d0 := sample_item file_a 100 in
  let d := sample_item file_b 100 in
  let w := __init__ (<[_manifest_path sample_buffer
                       := list_byte_of_string "[item]"]> three_files) in
  File_read (_manifest_path sample_buffer) None w = Done "[item]"%string w /\
  @loads (one_item_codec d0) "[item]" = Ok [d0] /\
  q (world_of ((put_ident d >>
                @start_manifest (one_item_codec d0) sample_buffer None) w))
  = [d] /\
  q (world_of ((@start_manifest (one_item_codec d0) sample_buffer None >>
                put_ident d) w))
  = [d].
Proof.
  cbv zeta. split; [vm_compute; reflexivity|]. split; [reflexivity|].
  split; vm_compute; reflexivity.
Qed.

(** * More of the buffer *)

Section GetLoop.

Lemma add_logs_nil (w : world) : add_logs [] w = w.
Proof. destruct w. unfold add_logs. cbn. now rewrite app_nil_r. Qed.

Lemma add_logs_popped (rs1 rs2 : list log_record) (l1 l2 : list item)
    (w : world) :
  add_logs rs2 (popped l2 (add_logs rs1 (popped l1 w)))
  = add_logs (rs1 ++ rs2) (popped l2 w).
Proof. unfold add_logs, popped. cbn. now rewrite app_assoc. Qed.

Lemma is_expired_classify (now : Z) (it : item) (w : world) :
  is_expired now it w
  = match classify now it with
    | Live => Done false w
    | Expired => Done true w
    | Malformed e => Raised e w
    end.
Proof.
  unfold is_expired, classify, getitem, bind.
  destruct (it !! "expire_time"%string) as [[s|t|n|]|]; try reflexivity.
  cbn. now destruct (t <? now).
Qed.

(** One turn of the loop: a live head is returned, any other head is
    dropped, with a debug record when it could not be judged. *)
Lemma get_loop_step (now : Z) (it : item) (rest : list item) (w : world) :
  get_loop now (it :: rest) w
  = match classify now it with
    | Live => Done it (popped rest w)
    | _ => get_loop now rest (add_logs (dropped_log now it) (popped rest w))
    end.
Proof.
  cbn [get_loop]. unfold bind at 1. unfold bind at 1. unfold bind at 1.
  unfold dirty, try_except. unfold bind at 1.
  rewrite is_expired_classify. unfold dropped_log.
  destruct (classify now it) as [| |e] eqn:C.
  - reflexivity.
  - rewrite add_logs_nil. reflexivity.
  - unfold classify in C.
    destruct (it !! "expire_time"%string) as [[s|t|n|]|];
      try (destruct (t <? now)); try discriminate C;
      injection C as <-; reflexivity.
Qed.

Lemma get_loop_drops (now : Z) (it : item) (pre rest : list item)
    (w : world) :
  Forall (fun x => classify now x <> Live) (it :: pre) ->
  get_loop now (it :: pre ++ rest) w
  = get_loop now rest
      (add_logs (flat_map (dropped_log now) (it :: pre)) (popped rest w)).
Proof.
  revert it w. induction pre as [|x pre IH]; intros it w Hn.
  - inversion Hn as [|? ? Hit _]; subst. rewrite get_loop_step.
    cbn [flat_map app]. rewrite app_nil_r.
    destruct (classify now it); [contradiction| |]; reflexivity.
  - inversion Hn as [|? ? Hit Hn']; subst. rewrite get_loop_step.
    assert (E : get_loop now ((x :: pre) ++ rest)
                  (add_logs (dropped_log now it) (popped ((x :: pre) ++ rest) w))
                = get_loop now rest
                    (add_logs (flat_map (dropped_log now) (it :: x :: pre))
                       (popped rest w))).
    { cbn [app]. rewrite IH by exact Hn'. rewrite add_logs_popped.
      reflexivity. }
    destruct (classify now it); [contradiction| |]; exact E.
Qed.

End GetLoop.

Section GetSpec.

Lemma first_live_split (now : Z) (l : list item) :
  Forall (fun x => classify now x <> Live) l \/
  exists pre it rest,
    l = pre ++ it :: rest /\
    Forall (fun x => classify now x <> Live) pre /\
    classify now it = Live.
Proof.
  induction l as [|x l IH]; [left; constructor|].
  destruct (classify now x) eqn:C.
  - right. exists [], x, l. repeat split; [constructor | exact C].
  - destruct IH as [IH|(pre & it & rest & -> & Hp & Hl)].
    + left. constructor; [congruence | exact IH].
    + right. exists (x :: pre), it, rest.
      repeat split; [constructor; [congruence | exact Hp] | exact Hl].
  - destruct IH as [IH|(pre & it & rest & -> & Hp & Hl)].
    + left. constructor; [congruence | exact IH].
    + right. exists (x :: pre), it, rest.
      repeat split; [constructor; [congruence | exact Hp] | exact Hl].
Qed.

Lemma get_loop_first_live (now : Z) (pre rest : list item) (it : item)
    (w : world) :
  Forall (fun x => classify now x <> Live) pre ->
  classify now it = Live ->
  get_loop now (pre ++ it :: rest) w
  = Done it (add_logs (flat_map (dropped_log now) pre) (popped rest w)).
Proof.
  intros Hp Hl. destruct pre as [|x pre].
  - cbn [app flat_map]. rewrite get_loop_step, Hl, add_logs_nil. reflexivity.
  - cbn [app]. rewrite get_loop_drops by exact Hp.
    rewrite get_loop_step, Hl. unfold add_logs, popped. reflexivity.
Qed.

Lemma get_loop_none_live (now : Z) (x : item) (l : list item) (w : world) :
  Forall (fun x => classify now x <> Live) (x :: l) ->
  get_loop now (x :: l) w
  = Blocked QueueGet
      (add_logs (flat_map (dropped_log now) (x :: l)) (popped [] w)).
Proof.
  intros Hn. rewrite <- (app_nil_r l) at 1.
  rewrite get_loop_drops by exact Hn. reflexivity.
Qed.

(** X1.  On a started buffer [get] returns the first descriptor of the
    queue that is live at its clock.  Everything ahead of it is dropped
    from the queue, one debug record is logged for each dropped descriptor
    that could not be judged (no ["expire_time"], or one that is not a
    datetime), the buffer is marked dirty and what was behind stays
    queued. *)
Theorem get_returns_first_live (now : Z) (pre rest : list item) (it : item)
    (w : world) :
  ready w = true -> q w = pre ++ it :: rest ->
  Forall (fun x => classify now x <> Live) pre ->
  classify now it = Live ->
  get now w
  = Done it (add_logs (flat_map (dropped_log now) pre) (popped rest w)).
Proof.
  intros Hr Hq Hp Hl. unfold get, bind, wait. rewrite Hr, Hq.
  now apply get_loop_first_live.
Qed.

(** X2.  When no queued descriptor is live, [get] on a started buffer
    empties the queue, marks the buffer dirty and parks waiting for the
    next descriptor: the expired and the malformed descriptors are gone
    from the queue although nothing was returned. *)
Theorem get_drains_queue_without_live (now : Z) (w : world) :
  ready w = true -> q w <> [] ->
  Forall (fun x => classify now x <> Live) (q w) ->
  get now w
  = Blocked QueueGet
      (add_logs (flat_map (dropped_log now) (q w)) (popped [] w)).
Proof.
  intros Hr Hq Hn. unfold get, bind, wait. rewrite Hr.
  destruct (q w) as [|x l]; [contradiction|].
  now apply get_loop_none_live.
Qed.

(** X3.  Whatever the queue holds, [get] never raises: a descriptor whose
    expiry is missing or is not a datetime is logged and skipped. *)
Theorem get_never_raises (now : Z) (w : world) (e : exn) (w' : world) :
  get now w <> Raised e w'.
Proof.
  unfold get, bind, wait. destruct (ready w); [|discriminate].
  destruct (first_live_split now (q w)) as [Hn|(pre & it & rest & -> & Hp & Hl)].
  - destruct (q w) as [|x l]; [discriminate|].
    rewrite get_loop_none_live by exact Hn. discriminate.
  - rewrite get_loop_first_live by assumption. discriminate.
Qed.

(** X4.  A descriptor [get] returns was in the queue and is live at the
    clock of the call; the buffer is then dirty and not clean. *)
Theorem get_returns_only_live (now : Z) (w w' : world) (it : item) :
  get now w = Done it w' ->
  it ∈ q w /\ classify now it = Live /\
  _manifest_dirty w' = true /\ _manifest_clean w' = false.
Proof.
  unfold get, bind, wait. destruct (ready w); [|discriminate].
  destruct (first_live_split now (q w)) as [Hn|(pre & x & rest & -> & Hp & Hl)].
  - destruct (q w) as [|x l]; [discriminate|].
    rewrite get_loop_none_live by exact Hn. discriminate.
  - rewrite get_loop_first_live by assumption. intros [= <- <-].
    split; [set_solver|]. auto.
Qed.

End GetSpec.

Lemma get_returns_first_live_witness :
  let w := started [no_expiry; text_expiry; sample_item file_b 10;
                    sample_item file_c 100; sample_item file_a 100]
                   false true three_files in
  get 50 w
  = Done (sample_item file_c 100)
      (add_logs [debug_record no_expiry (KeyError "expire_time");
                 debug_record text_expiry TypeError]
         (popped [sample_item file_a 100] w)).
Proof.
  cbv zeta.
  apply (get_returns_first_live 50
           [no_expiry; text_expiry; sample_item file_b 10]
           [sample_item file_a 100] (sample_item file_c 100)).
  - reflexivity.
  - reflexivity.
  - repeat constructor; discriminate.
  - reflexivity.
Defined.

Lemma get_drains_queue_without_live_witness :
  let w := started [sample_item file_a 10; no_expiry] false true three_files in
  get 50 w
  = Blocked QueueGet
      (add_logs [debug_record no_expiry (KeyError "expire_time")]
         (popped [] w)).
Proof.
  cbv zeta.
  apply (get_drains_queue_without_live 50
           (started [sample_item file_a 10; no_expiry] false true three_files)).
  - reflexivity.
  - discriminate.
  - repeat constructor; discriminate.
Defined.

Lemma get_returns_only_live_witness :
  sample_item file_b 100 ∈ q expired_then_live /\
  classify 50 (sample_item file_b 100) = Live /\
  _manifest_dirty (popped [] expired_then_live) = true /\
  _manifest_clean (popped [] expired_then_live) = false.
Proof.
  apply (get_returns_only_live 50 expired_then_live
           (popped [] expired_then_live) (sample_item file_b 100)).
  vm_compute. reflexivity.
Defined.

Section Sweep.

Lemma live_classify (now : Z) (it : item) :
  live now it <-> classify now it = Live.
Proof.
  unfold live, classify. split.
  - intros (t & -> & ->). reflexivity.
  - destruct (it !! "expire_time"%string) as [[s|t|n|]|]; try discriminate.
    destruct (t <? now) eqn:Ht; [discriminate|]. intros _. now exists t.
Qed.

Lemma expired_classify (now : Z) (it : item) :
  expired now it <-> classify now it = Expired.
Proof.
  unfold expired, classify. split.
  - intros (t & -> & ->). reflexivity.
  - destruct (it !! "expire_time"%string) as [[s|t|n|]|]; try discriminate.
    destruct (t <? now) eqn:Ht; [|discriminate]. intros _. now exists t.
Qed.

Lemma expire_outcome (it : item) (w : world) :
  exists w',
    expire it w = Raised (expire_exn it) w' /\
    files w' = files w /\ q w' = q w /\
    _manifest_dirty w' = _manifest_dirty w /\
    _manifest_clean w' = _manifest_clean w.
Proof.
  unfold expire_exn, expire, bind, getitem.
  destruct (it !! "path"%string) as [p|]; eexists;
    (split; [reflexivity|]); now cbn.
Qed.

(** X5.  [expire] never completes and never hands a job to the executor:
    for a descriptor with a path it logs "Expiring message" and raises
    [AttributeError] on [self._deferrer], for one without it raises
    [KeyError]; the files and the queue are as they were. *)
Theorem expire_always_raises (it : item) (w : world) :
  exists w',
    expire it w = Raised (expire_exn it) w' /\
    files w' = files w /\ q w' = q w /\
    (forall p, it !! "path"%string = Some p ->
       log w' = log w ++ [LogRecord INFO "Expiring message %s" (AVal p) None]) /\
    (it !! "path"%string = None -> w' = w).
Proof.
  unfold expire_exn. destruct (it !! "path"%string) as [p|] eqn:Hp.
  - rewrite (expire_raises it p) by exact Hp. eexists.
    split; [reflexivity|]. repeat split; try discriminate.
    intros p' [= <-]. reflexivity.
  - exists w. unfold expire, bind, getitem. rewrite Hp.
    repeat split; auto. discriminate.
Qed.

Lemma sweep_step (now : Z) (it : item) (old : list item) (w : world) :
  sweep now (it :: old) w
  = match classify now it with
    | Live => sweep now old (set_q (q w ++ [it]) w)
    | Expired => Raised (expire_exn it) (world_of (expire it w))
    | Malformed e => Raised e w
    end.
Proof.
  cbn [sweep]. unfold bind at 1. unfold bind at 1.
  rewrite is_expired_classify.
  destruct (classify now it); try reflexivity.
  destruct (expire_outcome it w) as (w' & -> & _). reflexivity.
Qed.

Lemma sweep_all_live (now : Z) (pre old : list item) (w : world) :
  Forall (fun x => classify now x = Live) pre ->
  sweep now (pre ++ old) w = sweep now old (set_q (q w ++ pre) w).
Proof.
  intros Hl. apply sweep_live. eapply Forall_impl; [exact Hl|].
  intros x. apply live_classify.
Qed.

(** The sweep completes exactly on a queue whose descriptors are all
    live. *)
Lemma sweep_done_iff (now : Z) (old : list item) (w : world) :
  (exists w', sweep now old w = Done tt w') <->
  Forall (fun x => classify now x = Live) old.
Proof.
  split.
  - revert w. induction old as [|it old IH]; intros w [w' E]; [constructor|].
    rewrite sweep_step in E. destruct (classify now it) eqn:C;
      try discriminate E.
    constructor; [exact C|]. eapply IH. eauto.
  - intros Hl. rewrite <- (app_nil_r old).
    rewrite sweep_all_live by exact Hl. cbn. eauto.
Qed.

End Sweep.

Section ExpireAll.

(** X7.  With the lock free, [expire_all] completes exactly when every
    queued descriptor is live at its clock.  The new queue it leaves holds
    the same descriptors in the same order, the files and the log are as they
    were, the buffer is dirty and not clean and the lock is free.  A
    single expired or malformed descriptor makes it raise. *)
Theorem expire_all_completes_iff (now : Z) (w : world) :
  _manifest_lock w = false ->
  ((exists w', expire_all now w = Done tt w') <->
   Forall (fun x => classify now x = Live) (q w)) /\
  (forall w', expire_all now w = Done tt w' ->
     q w' = q w /\ files w' = files w /\ log w' = log w /\
     _manifest_dirty w' = true /\ _manifest_clean w' = false /\
     _manifest_lock w' = false).
Proof.
  intros Hk.
  assert (Hdone : Forall (fun x => classify now x = Live) (q w) ->
                  expire_all now w = Done tt (set_events true false w)).
  { intros Hl. apply expire_all_nothing_expired; [exact Hk|].
    eapply Forall_impl; [exact Hl|]. intros x. apply live_classify. }
  assert (Hback : forall w', expire_all now w = Done tt w' ->
                  Forall (fun x => classify now x = Live) (q w)).
  { intros w'. unfold expire_all, async_with_lock. rewrite Hk.
    unfold bind at 1. unfold bind at 1.
    destruct (sweep now (q (set_lock true w)) (set_q [] (set_lock true w)))
      as [[] w1|e w1|g w1] eqn:E; try discriminate.
    intros _. apply (sweep_done_iff now (q w) (set_q [] (set_lock true w))).
    eauto. }
  split; [split|].
  - intros [w' E]. eauto.
  - intros Hl. eauto.
  - intros w' E. rewrite Hdone in E by eauto. injection E as <-.
    world_simpl. repeat split; auto.
Qed.

(** X8.  At the first queued descriptor that is not live, [expire_all]
    raises: the error of [expire] for an expired one, the [KeyError] or
    [TypeError] of the expiry test for a malformed one (which [get] would
    have skipped).  The queue keeps only the live descriptors ahead of it;
    everything behind it is lost, the files are untouched, the buffer is
    not marked dirty and the lock is released. *)
Theorem expire_all_raises_at_first_not_live (now : Z) (pre old : list item)
    (it : item) (w : world) :
  _manifest_lock w = false -> q w = pre ++ it :: old ->
  Forall (fun x => classify now x = Live) pre ->
  classify now it <> Live ->
  exists e w',
    expire_all now w = Raised e w' /\
    e = match classify now it with
        | Malformed x => x
        | _ => expire_exn it
        end /\
    q w' = pre /\ files w' = files w /\
    _manifest_dirty w' = _manifest_dirty w /\
    _manifest_clean w' = _manifest_clean w /\
    _manifest_lock w' = false.
Proof.
  intros Hk Hq Hl Hn. unfold expire_all, async_with_lock. rewrite Hk.
  unfold bind at 1. unfold bind at 1. world_simpl. rewrite Hq.
  rewrite sweep_all_live by exact Hl. rewrite sweep_step.
  destruct (classify now it) as [| |x]; [contradiction| |].
  - destruct (expire_outcome it
                (set_q (q (set_q [] (set_lock true w)) ++ pre)
                       (set_q [] (set_lock true w))))
      as (w1 & E & Hf & Hq1 & Hd1 & Hc1).
    rewrite E. cbn [world_of]. eexists. eexists.
    split; [reflexivity|]. split; [reflexivity|]. world_simpl.
    rewrite Hq1, Hf, Hd1, Hc1. world_simpl.
    repeat split; reflexivity.
  - eexists. eexists. split; [reflexivity|]. split; [reflexivity|].
    world_simpl. repeat split; reflexivity.
Qed.

End ExpireAll.

Lemma expire_all_completes_iff_witness :
  let w := started [sample_item file_a 100; sample_item file_b 60]
                   false true three_files in
  ((exists w', expire_all 50 w = Done tt w') <->
   Forall (fun x => classify 50 x = Live) (q w)) /\
  (forall w', expire_all 50 w = Done tt w' ->
     q w' = q w /\ files w' = files w /\ log w' = log w /\
     _manifest_dirty w' = true /\ _manifest_clean w' = false /\
     _manifest_lock w' = false).
Proof.
  cbv zeta.
  apply (expire_all_completes_iff 50
           (started [sample_item file_a 100; sample_item file_b 60]
                    false true three_files)).
  reflexivity.
Defined.

Lemma expire_all_raises_at_first_not_live_witness :
  let w := started [sample_item file_a 100; text_expiry; sample_item file_c 100]
                   false true three_files in
  exists e w',
    expire_all 50 w = Raised e w' /\
    e = TypeError /\
    q w' = [sample_item file_a 100] /\ files w' = files w /\
    _manifest_dirty w' = _manifest_dirty w /\
    _manifest_clean w' = _manifest_clean w /\
    _manifest_lock w' = false.
Proof.
  cbv zeta.
  apply (expire_all_raises_at_first_not_live 50 [sample_item file_a 100]
           [sample_item file_c 100] text_expiry
           (started [sample_item file_a 100; text_expiry; sample_item file_c 100]
                    false true three_files)).
  - reflexivity.
  - reflexivity.
  - repeat constructor.
  - discriminate.
Defined.

(** ** Relations every run keeps *)

Section Keeps.
Context (R : world -> world -> Prop) `{!PreOrder R}.

Lemma keeps_ret {A} (a : A) : keeps R (ret a).
Proof. intros w. reflexivity. Qed.

Lemma keeps_raise {A} (e : exn) : keeps R (@raise A e).
Proof. intros w. reflexivity. Qed.

Lemma keeps_lift {A} (r : result A) : keeps R (lift r).
Proof. destruct r; [apply keeps_ret | apply keeps_raise]. Qed.

Lemma keeps_wait (g : gate) (flag : world -> bool) : keeps R (wait g flag).
Proof. intros w. unfold wait. destruct (flag w); reflexivity. Qed.

Lemma keeps_bind {A B} (c : coro A) (k : A -> coro B) :
  keeps R c -> (forall a, keeps R (k a)) -> keeps R (bind c k).
Proof.
  intros Hc Hk w. unfold bind. specialize (Hc w).
  destruct (c w) as [a w1|e w1|g w1]; cbn in *; [|exact Hc..].
  etransitivity; [exact Hc | apply Hk].
Qed.

Lemma keeps_try_except {A} (body : coro A) (handler : exn -> option (coro A)) :
  keeps R body ->
  (forall e h, handler e = Some h -> keeps R h) ->
  keeps R (try_except body handler).
Proof.
  intros Hb Hh w. unfold try_except. specialize (Hb w).
  destruct (body w) as [a w1|e w1|g w1]; cbn in *; [exact Hb| |exact Hb].
  destruct (handler e) as [h|] eqn:E; [|exact Hb].
  etransitivity; [exact Hb | exact (Hh e h E w1)].
Qed.

Lemma keeps_try_except_else {A B} (body : coro A)
    (handler : exn -> option (coro B)) (orelse : A -> coro B) :
  keeps R body ->
  (forall e h, handler e = Some h -> keeps R h) ->
  (forall a, keeps R (orelse a)) ->
  keeps R (try_except_else body handler orelse).
Proof.
  intros Hb Hh Ho w. unfold try_except_else. specialize (Hb w).
  destruct (body w) as [a w1|e w1|g w1]; cbn in *; [| |exact Hb].
  - etransitivity; [exact Hb | apply Ho].
  - destruct (handler e) as [h|] eqn:E; [|exact Hb].
    etransitivity; [exact Hb | exact (Hh e h E w1)].
Qed.

Lemma keeps_try_finally_return {A B} (body : coro A) (v : B) :
  keeps R body -> keeps R (try_finally_return body v).
Proof.
  intros Hb w. unfold try_finally_return. specialize (Hb w).
  destruct (body w); exact Hb.
Qed.

Lemma keeps_call_without_await {A} (c : coro A) :
  keeps R (call_without_await c).
Proof. intros w. reflexivity. Qed.

Lemma keeps_for_each {A} (l : list A) (body : A -> coro unit) :
  (forall a, keeps R (body a)) -> keeps R (for_each l body).
Proof.
  intros Hb. induction l as [|x l IH]; [apply keeps_ret|].
  cbn [for_each]. apply keeps_bind; [apply Hb | intros _; exact IH].
Qed.

Lemma keeps_async_with_lock {A} (body : coro A) :
  (forall b w, R w (set_lock b w)) ->
  keeps R body -> keeps R (async_with_lock body).
Proof.
  intros Hl Hb w. unfold async_with_lock.
  destruct (_manifest_lock w); [reflexivity|].
  specialize (Hb (set_lock true w)).
  destruct (body (set_lock true w)) as [a w1|e w1|g w1]; cbn in *.
  - etransitivity; [apply (Hl true)|]. etransitivity; [exact Hb|]. apply Hl.
  - etransitivity; [apply (Hl true)|]. etransitivity; [exact Hb|]. apply Hl.
  - etransitivity; [apply (Hl true)|]. exact Hb.
Qed.

(** What the coroutines of the buffer do to the world, piece by piece. *)
Hypothesis R_q : forall l w, R w (set_q l w).
Hypothesis R_dirty : forall w, R w (set_events true false w).
Hypothesis R_log : forall r w, R w (add_log r w).

Lemma keeps_logger (l : level) (f : string) (a : logarg) (e : option exn) :
  keeps R (logger l f a e).
Proof. intros w. apply R_log. Qed.

Lemma keeps_q_put (x : item) : keeps R (q_put x).
Proof. intros w. apply R_q. Qed.

Lemma keeps_dirty : keeps R dirty.
Proof. intros w. apply R_dirty. Qed.

Lemma keeps_put_ident (d : item) : keeps R (put_ident d).
Proof.
  unfold put_ident. apply keeps_bind; [apply keeps_q_put|].
  intros _. apply keeps_dirty.
Qed.

Lemma keeps_is_expired (now : Z) (it : item) : keeps R (is_expired now it).
Proof.
  intros w. rewrite is_expired_classify.
  destruct (classify now it); reflexivity.
Qed.

Lemma keeps_expire (it : item) : keeps R (expire it).
Proof.
  intros w. unfold expire, bind, getitem.
  destruct (it !! "path"%string) as [p|]; [|reflexivity].
  cbn. apply R_log.
Qed.

Lemma keeps_get_loop (now : Z) (pending : list item) :
  keeps R (get_loop now pending).
Proof.
  induction pending as [|it rest IH]; intros w; [reflexivity|].
  rewrite get_loop_step.
  assert (Hp : R w (popped rest w)).
  { unfold popped. etransitivity; [apply (R_q rest)|]. apply R_dirty. }
  assert (Hd : R w (add_logs (dropped_log now it) (popped rest w))).
  { unfold dropped_log. destruct (classify now it) as [| |e].
    - now rewrite add_logs_nil.
    - now rewrite add_logs_nil.
    - etransitivity; [exact Hp|]. apply (R_log (debug_record it e)). }
  destruct (classify now it); cbn [world_of];
    [exact Hp | etransitivity; [exact Hd | apply IH]..].
Qed.

Lemma keeps_get (now : Z) : keeps R (get now).
Proof.
  unfold get. apply keeps_bind; [apply keeps_wait|]. intros _ w.
  apply keeps_get_loop.
Qed.

Lemma keeps_sweep (now : Z) (old : list item) : keeps R (sweep now old).
Proof.
  induction old as [|it old IH]; [apply keeps_ret|].
  cbn [sweep]. apply keeps_bind; [|intros _; exact IH].
  apply keeps_bind; [apply keeps_is_expired|].
  intros [|]; [apply keeps_expire | apply keeps_q_put].
Qed.

Lemma keeps_expire_all (now : Z) :
  (forall b w, R w (set_lock b w)) -> keeps R (expire_all now).
Proof.
  intros Hl. unfold expire_all. apply keeps_async_with_lock; [exact Hl|].
  apply keeps_bind; [intros w; apply R_q|].
  intros old. apply keeps_bind; [apply keeps_sweep|].
  intros _. apply keeps_dirty.
Qed.

End Keeps.

Section KeepsMethods.
Context (R : world -> world -> Prop) `{!PreOrder R}.
Context {json : Serde} (self : DurableBuffer).

Lemma keeps_open_w (path : string) (f : option fault) :
  (forall x w, R w (set_files (<[path := x]> (files w)) w)) ->
  keeps R (open_w path f).
Proof.
  intros Hi w. unfold open_w.
  destruct f as [[e|e n]|]; cbn; try apply Hi. reflexivity.
Qed.

Lemma keeps_fp_write (path : string) (data : list byte) (f : option fault) :
  (forall x w, R w (set_files (<[path := x]> (files w)) w)) ->
  keeps R (fp_write path data f).
Proof.
  intros Hi w. unfold fp_write.
  destruct f as [[e|e n]|]; cbn; apply Hi.
Qed.

(** [put] does to the world what queueing, marking dirty and writing the
    one payload path do. *)
Lemma keeps_put (u : string) (now : Z) (m : payload) (f : option fault) :
  (forall l w, R w (set_q l w)) ->
  (forall w, R w (set_events true false w)) ->
  (forall x w, R w (set_files
                      (<[path_join (_message_path self) u := x]> (files w)) w)) ->
  keeps R (put self u now m f).
Proof.
  intros Hq Hd Hi. unfold put.
  apply (keeps_bind R); [apply (keeps_wait R)|]. intros _.
  rewrite getattr_deferrer. apply (keeps_bind R); [apply (keeps_ret R)|]. intros _.
  apply (keeps_bind R).
  - unfold defer, _f. apply (keeps_bind R); [now apply keeps_open_w|].
    intros _. now apply keeps_fp_write.
  - intros _. unfold put_ident. apply (keeps_bind R); [intros w; apply Hq|].
    intros _ w. apply Hd.
Qed.

Lemma keeps__read_manifest (rd : option exn) :
  (forall r w, R w (add_log r w)) ->
  keeps R (_read_manifest self rd).
Proof.
  intros Hl. unfold _read_manifest. apply (keeps_try_except_else R).
  - intros w. unfold File_read. destruct rd; [reflexivity|].
    destruct (files w !! _manifest_path self) as [b|]; [|reflexivity].
    destruct (utf8_valid b); reflexivity.
  - intros e h. destruct (isinstance e cFileNotFoundError); [|discriminate].
    intros [= <-]. apply (keeps_ret R).
  - intros data. apply (keeps_try_finally_return R). apply (keeps_try_except R).
    + apply (keeps_bind R); [apply (keeps_lift R)|]. intros l. apply (keeps_ret R).
    + intros e h. destruct (isinstance e cJSONDecodeError).
      * intros [= <-]. apply (keeps_bind R); [intros w; apply Hl|].
        intros _. apply (keeps_ret R).
      * destruct (isinstance e cException); [|discriminate].
        intros [= <-]. apply (keeps_bind R); [intros w; apply Hl|].
        intros _. apply (keeps_ret R).
Qed.

Lemma keeps_start_manifest (rd : option exn) :
  (forall l w, R w (set_q l w)) ->
  (forall r w, R w (add_log r w)) ->
  (forall w, R w (set_ready true w)) ->
  (forall w, R w (set_writer_task true w)) ->
  keeps R (start_manifest self rd).
Proof.
  intros Hq Hl Hr Hw. unfold start_manifest.
  apply (keeps_bind R); [now apply keeps__read_manifest|]. intros loaded.
  apply (keeps_bind R); [apply (keeps_for_each R); intros x w; apply Hq|]. intros _.
  apply (keeps_bind R); [intros w; apply Hr|]. intros _ w. apply Hw.
Qed.

Lemma keeps_manifest_writer_cycle (f : option fault) :
  (forall b w, R w (set_lock b w)) ->
  (forall w, R w (set_events false true w)) ->
  (forall r w, R w (add_log r w)) ->
  (forall x w, R w (set_files (<[_manifest_path self := x]> (files w)) w)) ->
  keeps R (manifest_writer_cycle self f).
Proof.
  intros Hk Hc Hl Hi. unfold manifest_writer_cycle.
  apply (keeps_bind R); [apply (keeps_wait R)|]. intros _.
  apply (keeps_async_with_lock R); [exact Hk|]. apply (keeps_try_except R).
  - apply (keeps_bind R); [now apply keeps_open_w|]. intros _.
    apply (keeps_bind R); [intros w; reflexivity|]. intros snapshot.
    apply (keeps_bind R); [apply (keeps_lift R)|]. intros data.
    apply (keeps_bind R); [now apply keeps_fp_write|]. intros _ w. apply Hc.
  - intros e h. destruct (isinstance e cException); [|discriminate].
    intros [= <-] w. apply Hl.
Qed.

End KeepsMethods.

(** ** Paths of a buffer *)

Section Paths.

Lemma append_cons (x : ascii) (a b : string) :
  String x a +:+ b = String x (a +:+ b).
Proof. reflexivity. Qed.

Lemma append_assoc (a b c : string) : (a +:+ b) +:+ c = a +:+ b +:+ c.
Proof.
  induction a as [|x a IH]; [reflexivity|].
  rewrite !append_cons. now rewrite IH.
Qed.

Lemma append_cancel (a b c : string) : a +:+ b = a +:+ c -> b = c.
Proof.
  induction a as [|x a IH]; [auto|].
  rewrite !append_cons. intros [= H]. now apply IH.
Qed.

Lemma append_nonempty (a : string) (x : ascii) (b : string) :
  String.eqb (a +:+ String x b) "" = false.
Proof. now destruct a. Qed.

Lemma endswith_sep_append (a : string) (x : ascii) (b : string) :
  endswith_sep (a +:+ String x b) = endswith_sep (String x b).
Proof.
  induction a as [|y a IH]; [reflexivity|].
  rewrite append_cons. rewrite <- IH.
  destruct a as [|z a]; reflexivity.
Qed.

(** Both paths of a buffer hang off one directory prefix: the base path,
    with a slash added unless it is empty or ends in one. *)
Lemma buffer_paths (self : DurableBuffer) :
  exists pfx,
    _message_path self = pfx +:+ "messages" /\
    _manifest_path self = pfx +:+ "manifest-" +:+ key self /\
    (pfx = _base_path self \/ pfx = _base_path self +:+ "/").
Proof.
  unfold _message_path, _manifest_path, path_join.
  change (startswith_sep "messages") with false.
  change (startswith_sep ("manifest-" +:+ key self)) with false.
  cbv iota.
  destruct (String.eqb (_base_path self) "" || endswith_sep (_base_path self))%bool.
  - exists (_base_path self). auto.
  - exists (_base_path self +:+ "/"). rewrite !append_assoc. auto.
Qed.

(** The path of a payload whose file name does not start with a slash. *)
Lemma payload_path (self : DurableBuffer) (u : string) :
  startswith_sep u = false ->
  path_join (_message_path self) u = _message_path self +:+ "/" +:+ u.
Proof.
  intros Hu. unfold path_join at 1. rewrite Hu.
  destruct (buffer_paths self) as (pfx & -> & _).
  rewrite append_nonempty, endswith_sep_append. reflexivity.
Qed.

Lemma payload_path_not_manifest (self : DurableBuffer) (u : string) :
  startswith_sep u = false ->
  path_join (_message_path self) u <> _manifest_path self.
Proof.
  intros Hu. rewrite payload_path by exact Hu.
  destruct (buffer_paths self) as (pfx & -> & -> & _).
  rewrite append_assoc. intros E. apply append_cancel in E.
  rewrite !append_cons in E. discriminate E.
Qed.

(** X9.  The manifest of a buffer is never the payload file of a put: for
    a file name that does not start with a slash, as the text of a uuid
    never does, the payload path differs from the manifest path whatever
    the base directory and the key, and the put, whether its write fails
    or not, leaves the manifest file as it was. *)
Theorem manifest_is_no_payload {json : Serde} (self : DurableBuffer)
    (u : string) (now : Z) (m : payload) (f : option fault) (w : world) :
  startswith_sep u = false ->
  path_join (_message_path self) u <> _manifest_path self /\
  files (world_of (put self u now m f w)) !! _manifest_path self
  = files w !! _manifest_path self.
Proof.
  intros Hu. pose proof (payload_path_not_manifest self u Hu) as Hne.
  split; [exact Hne|].
  assert (HP : PreOrder (same_on (fun v => files v !! _manifest_path self))).
  { split; [intros x; reflexivity | intros x y z Hxy Hyz].
    unfold same_on in *. congruence. }
  apply (keeps_put (same_on (fun v => files v !! _manifest_path self)));
    try (intros; reflexivity).
  intros x v. unfold same_on. world_simpl. now rewrite lookup_insert_ne.
Qed.

Lemma manifest_path_inj (b1 b2 : DurableBuffer) :
  _base_path b1 = _base_path b2 ->
  _manifest_path b1 = _manifest_path b2 -> key b1 = key b2.
Proof.
  intros Hb. unfold _manifest_path. rewrite Hb. unfold path_join.
  change (startswith_sep ("manifest-" +:+ key b1)) with false.
  change (startswith_sep ("manifest-" +:+ key b2)) with false.
  cbv iota.
  destruct (String.eqb (_base_path b2) "" || endswith_sep (_base_path b2))%bool;
    intros E; apply append_cancel in E; cbv in E; injection E as E;
    exact E.
Qed.

(** X10.  Buffers over one base directory share the message directory and
    have one manifest each: different keys give different manifest
    paths. *)
Theorem manifest_per_key (b1 b2 : DurableBuffer) :
  _base_path b1 = _base_path b2 ->
  _message_path b1 = _message_path b2 /\
  (_manifest_path b1 = _manifest_path b2 -> key b1 = key b2).
Proof.
  intros Hb. split.
  - unfold _message_path. now rewrite Hb.
  - now apply manifest_path_inj.
Qed.

End Paths.

Lemma manifest_is_no_payload_witness :
  let w := started [] false true three_files in
  startswith_sep "0b5e" = false /\
  path_join (_message_path sample_buffer) "0b5e" <> _manifest_path sample_buffer /\
  files (world_of (put sample_buffer "0b5e" 0 (Bytes [x61]) None w))
    !! _manifest_path sample_buffer
  = files w !! _manifest_path sample_buffer.
Proof.
  cbv zeta. split; [reflexivity|].
  apply (@manifest_is_no_payload lines_codec sample_buffer "0b5e" 0
           (Bytes [x61]) None (started [] false true three_files)).
  reflexivity.
Defined.

Lemma manifest_per_key_witness :
  let b1 := FileBufferManager.new_buffer id "/var/receptor" "peer1" in
  let b2 := FileBufferManager.new_buffer id "/var/receptor" "peer2" in
  _base_path b1 = _base_path b2 /\
  _message_path b1 = _message_path b2 /\
  (_manifest_path b1 = _manifest_path b2 -> key b1 = key b2).
Proof.
  cbv zeta. split; [reflexivity|].
  apply (manifest_per_key
           (FileBufferManager.new_buffer id "/var/receptor" "peer1")
           (FileBufferManager.new_buffer id "/var/receptor" "peer2")).
  reflexivity.
Defined.

(** ** Schedules *)

Section Schedules.
Context {json : Serde} (self : DurableBuffer).

Lemma evolves_preorder : PreOrder evolves.
Proof.
  split.
  - intros w. unfold evolves. repeat split; auto.
    exists []. now rewrite app_nil_r.
  - intros x y z (Hr1 & Hw1 & (l1 & Hl1) & He1 & Hf1)
                 (Hr2 & Hw2 & (l2 & Hl2) & He2 & Hf2).
    unfold evolves. repeat split; auto.
    exists (l1 ++ l2). now rewrite Hl2, Hl1, app_assoc.
Qed.

Lemma same_on_preorder {A} (f : world -> A) : PreOrder (same_on f).
Proof.
  split; [intros x; reflexivity|].
  intros x y z Hxy Hyz. unfold same_on in *. congruence.
Qed.

(** A step that leaves READY, the writer task and the log alone, keeps a
    file wherever there was one and ends with at most one event set. *)
Lemma evolves_step (w w' : world) :
  ready w' = ready w -> writer_task w' = writer_task w ->
  log w' = log w ->
  (events_exclusive w -> events_exclusive w') ->
  (forall p, is_Some (files w !! p) -> is_Some (files w' !! p)) ->
  evolves w w'.
Proof.
  intros Hr Hw Hl He Hf. unfold evolves. rewrite Hr, Hw, Hl.
  repeat split; auto. exists []. now rewrite app_nil_r.
Qed.

Lemma evolves_insert (p : string) (x : list byte) (w : world) :
  evolves w (set_files (<[p := x]> (files w)) w).
Proof.
  apply evolves_step; try reflexivity; [intros H; exact H|].
  intros p' Hp. world_simpl.
  destruct (decide (p = p')) as [->|Hne];
    [rewrite lookup_insert_eq; eauto | now rewrite lookup_insert_ne].
Qed.

Lemma evolves_log (r : log_record) (w : world) : evolves w (add_log r w).
Proof. unfold evolves. repeat split; auto. now exists [r]. Qed.

Lemma run_call_evolves (c : call) (w : world) : evolves w (run_call self c w).
Proof.
  pose proof evolves_preorder as HP.
  assert (Hq : forall l v, evolves v (set_q l v))
    by (intros; apply evolves_step; try reflexivity; intros;
        (assumption || reflexivity)).
  assert (Hd : forall v, evolves v (set_events true false v))
    by (intros; apply evolves_step; try reflexivity; intros;
        (assumption || reflexivity)).
  assert (Hc : forall v, evolves v (set_events false true v))
    by (intros; apply evolves_step; try reflexivity; intros;
        (assumption || reflexivity)).
  assert (Hk : forall b v, evolves v (set_lock b v))
    by (intros; apply evolves_step; try reflexivity; intros;
        (assumption || reflexivity)).
  assert (Hr : forall v, evolves v (set_ready true v)).
  { intros v. unfold evolves. repeat split; auto.
    exists []. now rewrite app_nil_r. }
  assert (Hw : forall v, evolves v (set_writer_task true v)).
  { intros v. unfold evolves. repeat split; auto.
    exists []. now rewrite app_nil_r. }
  destruct c as [rd|u now m f|d|now|now|f]; cbn [run_call].
  - apply (keeps_start_manifest evolves); auto using evolves_log.
  - apply (keeps_put evolves); auto using evolves_insert.
  - apply (keeps_put_ident evolves); auto.
  - apply (keeps_get evolves); auto using evolves_log.
  - apply (keeps_expire_all evolves); auto using evolves_log.
  - destruct (writer_task w); [|reflexivity].
    apply (keeps_manifest_writer_cycle evolves);
      auto using evolves_log, evolves_insert.
Qed.

Lemma run_calls_app (cs1 cs2 : list call) (w : world) :
  run_calls self (cs1 ++ cs2) w = run_calls self cs2 (run_calls self cs1 w).
Proof. unfold run_calls. apply foldl_app. Qed.

Lemma run_calls_evolves (cs : list call) (w : world) :
  evolves w (run_calls self cs w).
Proof.
  pose proof evolves_preorder as HP.
  revert w. induction cs as [|c cs IH]; intros w; [reflexivity|].
  cbn. etransitivity; [apply run_call_evolves | apply IH].
Qed.

(** X11.  No schedule of calls undoes what the buffer has done: READY and
    the writer task once set stay set, the log only grows, the dirty and
    the clean event stay exclusive, and no file that exists is ever
    deleted, the payload files of expired descriptors included. *)
Theorem schedule_evolves (cs : list call) (w : world) :
  let w' := run_calls self cs w in
  (ready w = true -> ready w' = true) /\
  (writer_task w = true -> writer_task w' = true) /\
  (exists l, log w' = log w ++ l) /\
  (events_exclusive w -> events_exclusive w') /\
  (forall p b, files w !! p = Some b -> exists b', files w' !! p = Some b').
Proof.
  destruct (run_calls_evolves cs w) as (Hr & Hw & Hl & He & Hf).
  cbv zeta. repeat split; auto.
  intros p b Hp. destruct (Hf p) as [b' Hb']; eauto.
Qed.

End Schedules.

Section Invariants.
Context {json : Serde} (self : DurableBuffer).

Lemma never_parks_bind {A B} (c : coro A) (k : A -> coro B) :
  never_parks c -> (forall a, never_parks (k a)) -> never_parks (bind c k).
Proof.
  intros Hc Hk w g w'. unfold bind.
  destruct (c w) as [a w1|e w1|g1 w1] eqn:E; [apply Hk|discriminate|].
  now destruct (Hc w g1 w1).
Qed.

Lemma never_parks_sweep (now : Z) (old : list item) : never_parks (sweep now old).
Proof.
  induction old as [|it old IH]; intros w g w'; [discriminate|].
  rewrite sweep_step. destruct (classify now it); [apply IH|discriminate..].
Qed.

Lemma never_parks_flush (f : option fault) :
  never_parks
    (try_except
       (File_enter_w (_manifest_path self) f >>
        let* snapshot := (fun w => Done (q w) w) in
        let* data := lift (dumps snapshot) in
        File_write (_manifest_path self) data f >>
        clean)
       (fun e =>
          if isinstance e cException then
            Some (logger ERROR "Failed to write manifest for %s"
                         (AStr (_manifest_path self)) (Some e))
          else None)).
Proof.
  intros w g w'.
  unfold try_except, bind, File_enter_w, File_write, open_w, fp_write, lift,
    clean, logger, raise, ret.
  destruct f as [[e|e n]|]; cbv beta iota.
  - destruct (isinstance e cException); discriminate.
  - destruct (dumps _) as [data|e']; cbv beta iota.
    + destruct (isinstance e cException); discriminate.
    + destruct (isinstance e' cException); discriminate.
  - destruct (dumps _) as [data|e']; cbv beta iota; [discriminate|].
    destruct (isinstance e' cException); discriminate.
Qed.

(** Leaving [async with self._manifest_lock] frees the lock, whether the
    body finished or raised. *)
Lemma async_with_lock_frees {A} (body : coro A) (w : world) :
  never_parks body -> _manifest_lock w = false ->
  _manifest_lock (world_of (async_with_lock body w)) = false.
Proof.
  intros Hb Hk. unfold async_with_lock. rewrite Hk.
  destruct (body (set_lock true w)) as [a w1|e w1|g w1] eqn:E;
    [reflexivity..|]. now destruct (Hb _ _ _ E).
Qed.

(** A start that does not complete leaves the writer task as it was. *)
Lemma start_manifest_done_or_same (rd : option exn) (w : world) :
  (exists w', start_manifest self rd w = Done tt w') \/
  writer_task (world_of (start_manifest self rd w)) = writer_task w.
Proof.
  pose proof (same_on_preorder writer_task) as HP.
  pose proof (keeps__read_manifest (same_on writer_task) self rd
                ltac:(intros; reflexivity) w) as Hread.
  destruct (_read_manifest self rd w) as [l w1|e w1|g w1] eqn:E.
  - left. unfold start_manifest, bind. rewrite E, for_each_q_put. eauto.
  - right. unfold start_manifest, bind. rewrite E. exact Hread.
  - right. unfold start_manifest, bind. rewrite E. exact Hread.
Qed.

Lemma run_call_writer_needs_ready (c : call) (w : world) :
  (writer_task w = true -> ready w = true) ->
  writer_task (run_call self c w) = true -> ready (run_call self c w) = true.
Proof.
  intros HP Hw.
  destruct (run_call_evolves self c w) as (Hr & _).
  assert (Hsame : writer_task (run_call self c w) = writer_task w ->
                  ready (run_call self c w) = true).
  { intros E. rewrite E in Hw. auto. }
  pose proof (same_on_preorder writer_task) as HPre.
  destruct c as [rd|u now m f|d|now|now|f]; cbn [run_call] in *.
  - destruct (start_manifest_done_or_same rd w) as [[w' E]|E]; [|auto].
    rewrite E. cbn. now apply (start_manifest_pushes_nothing self rd w w').
  - apply Hsame. apply (keeps_put (same_on writer_task)); intros; reflexivity.
  - apply Hsame. apply (keeps_put_ident (same_on writer_task));
      intros; reflexivity.
  - apply Hsame. apply (keeps_get (same_on writer_task)); intros; reflexivity.
  - apply Hsame. apply (keeps_expire_all (same_on writer_task));
      intros; reflexivity.
  - destruct (writer_task w) eqn:Ew; [|congruence].
    apply Hr, HP. reflexivity.
Qed.

(** X12.  From [__init__] on, whatever the schedule: the dirty and the
    clean event are never both set, and the writer task exists only on a
    buffer that is READY. *)
Theorem schedule_from_init (cs : list call) (fs : gmap string (list byte)) :
  let w := run_calls self cs (__init__ fs) in
  events_exclusive w /\
  (writer_task w = true -> ready w = true).
Proof.
  cbv zeta.
  assert (H : forall w0,
            (writer_task w0 = true -> ready w0 = true) ->
            writer_task (run_calls self cs w0) = true ->
            ready (run_calls self cs w0) = true).
  { induction cs as [|c cs IH]; intros w0 HP; [auto|].
    cbn. apply IH. now apply run_call_writer_needs_ready. }
  destruct (run_calls_evolves self cs (__init__ fs)) as (_ & _ & _ & He & _).
  split; [now apply He|]. apply H. discriminate.
Qed.

End Invariants.

Section Writer.
Context {json : Serde} (self : DurableBuffer).

Lemma cycle_lock_free (f : option fault) (w : world) :
  _manifest_lock w = false ->
  _manifest_lock (world_of (manifest_writer_cycle self f w)) = false.
Proof.
  intros Hk. unfold manifest_writer_cycle, bind, wait.
  destruct (_manifest_dirty w); [|exact Hk].
  apply async_with_lock_frees; [apply never_parks_flush | exact Hk].
Qed.

(** With the lock free a turn of the writer parks only for want of the
    dirty event, and then it has done nothing. *)
Lemma cycle_parks_on_dirty (f : option fault) (w w' : world) (g : gate) :
  _manifest_lock w = false ->
  manifest_writer_cycle self f w = Blocked g w' ->
  g = DirtyWait /\ w' = w /\ _manifest_dirty w = false.
Proof.
  intros Hk. unfold manifest_writer_cycle, bind, wait.
  destruct (_manifest_dirty w); [|now intros [= <- <-]].
  unfold async_with_lock. rewrite Hk.
  match goal with |- context [try_except ?b ?h ?v] =>
    destruct (try_except b h v) as [a w1|e w1|g1 w1] eqn:E end;
    try discriminate.
  now destruct (never_parks_flush self f _ _ _ E).
Qed.

Lemma keeps_manifest_writer (R : world -> world -> Prop) `{!PreOrder R}
    (script : list (option fault)) :
  (forall b w, R w (set_lock b w)) ->
  (forall w, R w (set_events false true w)) ->
  (forall r w, R w (add_log r w)) ->
  (forall x w, R w (set_files (<[_manifest_path self := x]> (files w)) w)) ->
  keeps R (manifest_writer self script).
Proof.
  intros Hk Hc Hl Hi. induction script as [|f script IH];
    [apply (keeps_ret R)|].
  cbn [manifest_writer]. apply (keeps_bind R); [|intros _; exact IH].
  now apply (keeps_manifest_writer_cycle R).
Qed.

Lemma manifest_writer_parks_on_dirty (script : list (option fault))
    (w w' : world) (g : gate) :
  _manifest_lock w = false ->
  manifest_writer self script w = Blocked g w' -> g = DirtyWait.
Proof.
  revert w. induction script as [|f script IH]; intros w Hk; [discriminate|].
  cbn [manifest_writer]. unfold bind at 1.
  pose proof (cycle_lock_free f w Hk) as Hk1.
  destruct (manifest_writer_cycle self f w) as [[] w1|e w1|g1 w1] eqn:E;
    cbn in Hk1; [now apply IH|discriminate|].
  intros [= <- _]. now apply (cycle_parks_on_dirty f w w1 g1).
Qed.

(** X13.  The writer loop is never brought down by a failing flush: over
    any script of failures that are [Exception]s, with a codec that raises
    nothing worse, it either runs the script out or parks waiting for the
    dirty event, and it leaves the queue and READY as they were. *)
Theorem manifest_writer_survives (script : list (option fault)) (w : world) :
  _manifest_lock w = false ->
  Forall (fun f => match f with
                   | Some x => isinstance (fault_exn x) cException = true
                   | None => True
                   end) script ->
  (forall l e, dumps l = Err e -> isinstance e cException = true) ->
  ((exists w', manifest_writer self script w = Done tt w') \/
   (exists w', manifest_writer self script w = Blocked DirtyWait w')) /\
  q (world_of (manifest_writer self script w)) = q w /\
  ready (world_of (manifest_writer self script w)) = ready w.
Proof.
  intros Hk Hf Hs. split; [|split].
  - destruct (manifest_writer self script w) as [[] w1|e w1|g w1] eqn:E.
    + left. eauto.
    + now destruct (manifest_writer_never_raises self script w Hk Hf Hs e w1).
    + right. apply manifest_writer_parks_on_dirty in E; [|exact Hk].
      subst g. eauto.
  - pose proof (same_on_preorder q) as HP.
    apply (keeps_manifest_writer (same_on q)); intros; reflexivity.
  - pose proof (same_on_preorder ready) as HP.
    apply (keeps_manifest_writer (same_on ready)); intros; reflexivity.
Qed.

(** X14.  After a flush that went through, the writer has nothing to do:
    its next turn parks on the dirty event with the world untouched,
    whatever would have gone wrong with the file, until a descriptor is
    queued again. *)
Theorem writer_parks_until_dirty (w : world) (data : string) :
  _manifest_dirty w = true -> _manifest_lock w = false ->
  dumps (q w) = Ok data ->
  exists w2,
    manifest_writer_cycle self None w = Done tt w2 /\
    (forall f, manifest_writer_cycle self f w2 = Blocked DirtyWait w2) /\
    (forall d f g w3,
       manifest_writer_cycle self f (world_of (put_ident d w2))
       <> Blocked g w3).
Proof.
  intros Hd Hk Hs. eexists. split; [now apply (flush_done self w data)|].
  split.
  - intros f. reflexivity.
  - intros d f g w3 E. rewrite put_ident_done in E. cbn [world_of] in E.
    apply cycle_parks_on_dirty in E; [|exact Hk].
    destruct E as (_ & _ & E). discriminate E.
Qed.

End Writer.

Lemma manifest_writer_survives_witness :
  let w := started [sample_item file_a 100] true false three_files in
  let script := [Some (OpenFails (OSError 13));
                 Some (WriteFails (OSError 28) 2); None; None] in
  ((exists w', @manifest_writer lines_codec sample_buffer script w = Done tt w') \/
   (exists w', @manifest_writer lines_codec sample_buffer script w
               = Blocked DirtyWait w')) /\
  q (world_of (@manifest_writer lines_codec sample_buffer script w)) = q w /\
  ready (world_of (@manifest_writer lines_codec sample_buffer script w))
  = ready w.
Proof.
  cbv zeta.
  apply (@manifest_writer_survives lines_codec sample_buffer).
  - reflexivity.
  - repeat constructor.
  - intros l e He. cbn in He. unfold as_text in He.
    destruct (utf8_valid _) in He; [discriminate He|].
    injection He as <-. reflexivity.
Defined.

Lemma writer_parks_until_dirty_witness :
  let w := started [sample_item file_a 100] true false three_files in
  exists w2,
    @manifest_writer_cycle lines_codec sample_buffer None w = Done tt w2 /\
    (forall f, @manifest_writer_cycle lines_codec sample_buffer f w2
               = Blocked DirtyWait w2) /\
    (forall d f g w3,
       @manifest_writer_cycle lines_codec sample_buffer f
          (world_of (put_ident d w2))
       <> Blocked g w3).
Proof.
  cbv zeta.
  apply (@writer_parks_until_dirty lines_codec sample_buffer
           (started [sample_item file_a 100] true false three_files)
           "/var/receptor/messages/a").
  - reflexivity.
  - reflexivity.
  - reflexivity.
Defined.

Section Frames.
Context {json : Serde} (self : DurableBuffer).

Lemma run_call_keeps_manifest (c : call) (w : world) :
  is_writer c = false -> relative_uuids [c] ->
  files (run_call self c w) !! _manifest_path self
  = files w !! _manifest_path self.
Proof.
  intros Hw Hu. inversion Hu as [|? ? Hc _]; subst.
  pose proof (same_on_preorder (fun v => files v !! _manifest_path self)) as HP.
  destruct c as [rd|u now m f|d|now|now|f]; cbn [run_call]; try discriminate Hw.
  - apply (keeps_start_manifest
             (same_on (fun v => files v !! _manifest_path self)));
      intros; reflexivity.
  - apply (keeps_put (same_on (fun v => files v !! _manifest_path self)));
      try (intros; reflexivity).
    intros x v. unfold same_on. world_simpl.
    rewrite lookup_insert_ne; [reflexivity|].
    now apply payload_path_not_manifest.
  - apply (keeps_put_ident
             (same_on (fun v => files v !! _manifest_path self)));
      intros; reflexivity.
  - apply (keeps_get (same_on (fun v => files v !! _manifest_path self)));
      intros; reflexivity.
  - apply (keeps_expire_all
             (same_on (fun v => files v !! _manifest_path self)));
      intros; reflexivity.
Qed.

(** X15.  Only the writer touches the manifest: a schedule without a turn
    of the writer, whose puts draw file names that do not start with a
    slash, leaves the manifest file as it was, whatever it queues, pops,
    sweeps or fails to write. *)
Theorem manifest_written_by_writer_only (cs : list call) (w : world) :
  Forall (fun c => is_writer c = false) cs -> relative_uuids cs ->
  files (run_calls self cs w) !! _manifest_path self
  = files w !! _manifest_path self.
Proof.
  intros Hw Hu. revert w.
  induction cs as [|c cs IH]; intros w; [reflexivity|].
  inversion Hw as [|? ? Hc Hw']; inversion Hu as [|? ? Hc' Hu']; subst.
  change (run_calls self (c :: cs) w)
    with (run_calls self cs (run_call self c w)).
  rewrite IH by assumption.
  apply run_call_keeps_manifest; [exact Hc | now constructor].
Qed.

Lemma run_call_keeps_ready (c : call) (w : world) :
  is_start c = false -> ready (run_call self c w) = ready w.
Proof.
  intros Hs. pose proof (same_on_preorder ready) as HP.
  destruct c as [rd|u now m f|d|now|now|f]; cbn [run_call]; try discriminate Hs.
  - apply (keeps_put (same_on ready)); intros; reflexivity.
  - apply (keeps_put_ident (same_on ready)); intros; reflexivity.
  - apply (keeps_get (same_on ready)); intros; reflexivity.
  - apply (keeps_expire_all (same_on ready)); intros; reflexivity.
  - destruct (writer_task w); [|reflexivity].
    apply (keeps_manifest_writer_cycle (same_on ready)); intros; reflexivity.
Qed.

Lemma run_calls_keep_ready (cs : list call) (w : world) :
  Forall (fun c => is_start c = false) cs ->
  ready (run_calls self cs w) = ready w.
Proof.
  intros Hs. revert w. induction Hs as [|c cs Hc Hs IH]; intros w;
    [reflexivity|].
  change (run_calls self (c :: cs) w)
    with (run_calls self cs (run_call self c w)).
  rewrite IH. now apply run_call_keeps_ready.
Qed.

(** X16.  A manifest that cannot be read for another reason than its
    absence stops the buffer for good: [start_manifest] raises that error
    with the world untouched, READY is never set by any later call, and
    every put and every get parks on the readiness gate. *)
Theorem failed_start_blocks_buffer (e : exn) (fs : gmap string (list byte))
    (cs : list call) :
  isinstance e cFileNotFoundError = false ->
  Forall (fun c => is_start c = false) cs ->
  start_manifest self (Some e) (__init__ fs) = Raised e (__init__ fs) /\
  let w := run_calls self cs (__init__ fs) in
  ready w = false /\
  (forall u now m f, put self u now m f w = Blocked ReadyWait w) /\
  (forall now, get now w = Blocked ReadyWait w).
Proof.
  intros He Hs. split; [now apply start_manifest_read_error|].
  cbv zeta.
  assert (Hr : ready (run_calls self cs (__init__ fs)) = false)
    by now rewrite run_calls_keep_ready.
  split; [exact Hr|]. split.
  - intros. now apply put_parks.
  - intros. now apply get_parks.
Qed.

(** X17.  A put whose open fails raises with the world untouched; a put
    whose write fails after [n] bytes raises with the first [n] bytes of
    the payload left in the payload file.  In both cases the queue is as
    it was, so no descriptor points at what is on disk. *)
Theorem failed_put_leaves_orphan (u : string) (now : Z) (m : payload)
    (e : exn) (n : nat) (w : world) :
  ready w = true ->
  put self u now m (Some (OpenFails e)) w = Raised e w /\
  exists w',
    put self u now m (Some (WriteFails e n)) w = Raised e w' /\
    files w' !! path_join (_message_path self) u
    = Some (take n (payload_bytes m)) /\
    q w' = q w /\
    (forall p, p <> path_join (_message_path self) u ->
               files w' !! p = files w !! p).
Proof.
  intros Hr. unfold put, bind, wait. rewrite Hr, getattr_deferrer.
  split; [reflexivity|]. eexists. split; [reflexivity|]. world_simpl.
  rewrite lookup_insert_eq. repeat split.
  intros p Hp. now rewrite !lookup_insert_ne by congruence.
Qed.

(** X18.  A descriptor lives five minutes, the bound included: on a
    started buffer with an empty queue, the descriptor of a put at [now]
    is returned by a get whose clock is at most [now] plus five minutes;
    a get with a later clock drops it and parks, and the payload file
    stays on disk. *)
Theorem put_expires_after_five_minutes (u : string) (now t : Z)
    (m : payload) (w : world) :
  ready w = true -> q w = [] ->
  let w1 := after_put self u now m w in
  put self u now m None w = Done tt w1 /\
  (t <= now + 300000000 ->
   get t w1 = Done (new_item self u now) (popped [] w1)) /\
  (now + 300000000 < t ->
   get t w1 = Blocked QueueGet (popped [] w1) /\
   files (popped [] w1) !! path_join (_message_path self) u
   = Some (payload_bytes m)).
Proof.
  intros Hr Hq. cbv zeta. split; [now apply put_done|].
  assert (Hg : get t (after_put self u now m w)
               = get_loop t [new_item self u now] (after_put self u now m w)).
  { unfold get, bind, wait, after_put. cbv zeta. world_simpl.
    rewrite Hr, Hq. reflexivity. }
  assert (Hc : classify t (new_item self u now)
               = if now + five_minutes <? t then Expired else Live)
    by reflexivity.
  change five_minutes with 300000000 in Hc.
  split.
  - intros Ht. rewrite Hg, get_loop_step, Hc.
    now rewrite (proj2 (Z.ltb_ge _ _)) by exact Ht.
  - intros Ht. rewrite Hg, get_loop_step, Hc.
    rewrite (proj2 (Z.ltb_lt _ _)) by exact Ht.
    split.
    + unfold dropped_log. rewrite Hc.
      rewrite (proj2 (Z.ltb_lt _ _)) by exact Ht. now rewrite add_logs_nil.
    + world_simpl. now rewrite lookup_insert_eq.
Qed.

End Frames.

Lemma manifest_written_by_writer_only_witness :
  let cs := [CallStart None; CallPutIdent no_expiry;
             CallPut "0b5e" 0 (Bytes [x61]) None;
             CallPut "77aa" 1 (Bytes [x62]) (Some (WriteFails (OSError 28) 0));
             CallGet 50; CallExpireAll 400000000] in
  let w := __init__ (<[_manifest_path sample_buffer := garbage]> three_files) in
  Forall (fun c => is_writer c = false) cs /\ relative_uuids cs /\
  files (@run_calls lines_codec sample_buffer cs w) !! _manifest_path sample_buffer
  = files w !! _manifest_path sample_buffer.
Proof.
  cbv zeta.
  assert (H1 : Forall (fun c => is_writer c = false)
                 [CallStart None; CallPutIdent no_expiry;
                  CallPut "0b5e" 0 (Bytes [x61]) None;
                  CallPut "77aa" 1 (Bytes [x62])
                          (Some (WriteFails (OSError 28) 0));
                  CallGet 50; CallExpireAll 400000000])
    by (repeat constructor).
  assert (H2 : relative_uuids
                 [CallStart None; CallPutIdent no_expiry;
                  CallPut "0b5e" 0 (Bytes [x61]) None;
                  CallPut "77aa" 1 (Bytes [x62])
                          (Some (WriteFails (OSError 28) 0));
                  CallGet 50; CallExpireAll 400000000])
    by (repeat constructor).
  split; [exact H1|]. split; [exact H2|].
  exact (@manifest_written_by_writer_only lines_codec sample_buffer _ _ H1 H2).
Defined.

Lemma failed_start_blocks_buffer_witness :
  let cs := [CallPutIdent no_expiry; CallGet 50; CallWriter None;
             CallPut "0b5e" 0 (Bytes [x61]) None] in
  isinstance (OSError 13) cFileNotFoundError = false /\
  Forall (fun c => is_start c = false) cs /\
  @start_manifest lines_codec sample_buffer (Some (OSError 13))
     (__init__ three_files) = Raised (OSError 13) (__init__ three_files) /\
  let w := @run_calls lines_codec sample_buffer cs (__init__ three_files) in
  ready w = false /\
  (forall u now m f, put sample_buffer u now m f w = Blocked ReadyWait w) /\
  (forall now, get now w = Blocked ReadyWait w).
Proof.
  cbv zeta.
  assert (H : Forall (fun c => is_start c = false)
                [CallPutIdent no_expiry; CallGet 50; CallWriter None;
                 CallPut "0b5e" 0 (Bytes [x61]) None])
    by (repeat constructor).
  split; [reflexivity|]. split; [exact H|].
  exact (@failed_start_blocks_buffer lines_codec sample_buffer (OSError 13)
           three_files _ eq_refl H).
Defined.

Lemma failed_put_leaves_orphan_witness :
  let w := started [] false true ∅ in
  ready w = true /\
  put sample_buffer "0b5e" 0 (Chunks [[x61]; [x62; x63]])
      (Some (OpenFails (OSError 24))) w = Raised (OSError 24) w /\
  exists w',
    put sample_buffer "0b5e" 0 (Chunks [[x61]; [x62; x63]])
        (Some (WriteFails (OSError 24) 2)) w = Raised (OSError 24) w' /\
    files w' !! path_join (_message_path sample_buffer) "0b5e"
    = Some (take 2 (payload_bytes (Chunks [[x61]; [x62; x63]]))) /\
    q w' = q w /\
    (forall p, p <> path_join (_message_path sample_buffer) "0b5e" ->
               files w' !! p = files w !! p).
Proof.
  cbv zeta. split; [reflexivity|].
  apply (failed_put_leaves_orphan sample_buffer "0b5e" 0
           (Chunks [[x61]; [x62; x63]]) (OSError 24) 2
           (started [] false true ∅)).
  reflexivity.
Defined.

Lemma put_expires_after_five_minutes_witness :
  let w := started [] false true ∅ in
  let w1 := after_put sample_buffer "0b5e" 7 (Bytes [x61]) w in
  ready w = true /\ q w = [] /\
  put sample_buffer "0b5e" 7 (Bytes [x61]) None w = Done tt w1 /\
  (300000007 <= 7 + 300000000 ->
   get 300000007 w1 = Done (new_item sample_buffer "0b5e" 7) (popped [] w1)) /\
  (7 + 300000000 < 300000007 ->
   get 300000007 w1 = Blocked QueueGet (popped [] w1) /\
   files (popped [] w1) !! path_join (_message_path sample_buffer) "0b5e"
   = Some (payload_bytes (Bytes [x61]))).
Proof.
  cbv zeta. split; [reflexivity|]. split; [reflexivity|].
  apply (put_expires_after_five_minutes sample_buffer "0b5e" 7 300000007
           (Bytes [x61]) (started [] false true ∅)).
  - reflexivity.
  - reflexivity.
Defined.

(** ** The registry *)

Section Registry.
Context (expanduser : string -> string).

Lemma getitem_present (m : FileBufferManager.t) (k : string)
    (b : DurableBuffer) :
  FileBufferManager.entries m !! k = Some b ->
  FileBufferManager.__getitem__ expanduser m k = (m, b).
Proof. intros H. unfold FileBufferManager.__getitem__. now rewrite H. Qed.

(** X19.  Looking a key up in the manager is memoized: the lookup stores
    the buffer it returns, a second lookup of the key returns the same
    buffer and changes nothing, and no lookup removes or replaces the
    buffer of any key. *)
Theorem manager_lookup_memoizes (m : FileBufferManager.t) (k : string) :
  let r := FileBufferManager.__getitem__ expanduser m k in
  FileBufferManager.__getitem__ expanduser (fst r) k = r /\
  FileBufferManager.entries (fst r) !! k = Some (snd r) /\
  FileBufferManager.path (fst r) = FileBufferManager.path m /\
  (forall k' b, FileBufferManager.entries m !! k' = Some b ->
                FileBufferManager.entries (fst r) !! k' = Some b) /\
  (forall k', k' <> k ->
              FileBufferManager.entries (fst r) !! k'
              = FileBufferManager.entries m !! k').
Proof.
  cbv zeta.
  destruct (FileBufferManager.entries m !! k) as [b|] eqn:E.
  - rewrite (getitem_present m k b E). cbn [fst snd].
    rewrite (getitem_present m k b E). auto.
  - assert (Hr : FileBufferManager.__getitem__ expanduser m k
                 = FileBufferManager.__missing__ expanduser m k)
      by (unfold FileBufferManager.__getitem__; now rewrite E).
    rewrite Hr. unfold FileBufferManager.__missing__.
    cbn [fst snd FileBufferManager.entries FileBufferManager.path].
    split.
    { apply getitem_present. cbn [FileBufferManager.entries].
      apply lookup_insert_eq. }
    split; [apply lookup_insert_eq|]. split; [reflexivity|]. split.
    + intros k' b Hb. rewrite lookup_insert_ne; [exact Hb|]. congruence.
    + intros k' Hk. now rewrite lookup_insert_ne.
Qed.

Lemma getitem_built (m : FileBufferManager.t) (k : string) :
  FileBufferManager.built expanduser m ->
  FileBufferManager.built expanduser
    (fst (FileBufferManager.__getitem__ expanduser m k)) /\
  snd (FileBufferManager.__getitem__ expanduser m k)
  = FileBufferManager.new_buffer expanduser (FileBufferManager.path m) k.
Proof.
  intros Hb. unfold FileBufferManager.__getitem__.
  destruct (FileBufferManager.entries m !! k) as [b|] eqn:E; cbn [fst snd].
  - split; [exact Hb | now apply Hb].
  - split; [|reflexivity]. intros k' b.
    unfold FileBufferManager.__missing__.
    cbn [fst FileBufferManager.entries FileBufferManager.path].
    destruct (decide (k = k')) as [->|Hne].
    + rewrite lookup_insert_eq. now intros [= <-].
    + rewrite lookup_insert_ne by exact Hne. apply Hb.
Qed.

(** X20.  In a manager whose entries were all made by lookups, the buffer
    of a key is rooted at the manager's expanded path and carries that
    key; the buffers of two different keys share the message directory
    and have different manifest files. *)
Theorem manager_buffers_by_key (m : FileBufferManager.t) (k1 k2 : string) :
  FileBufferManager.built expanduser m -> k1 <> k2 ->
  let r1 := FileBufferManager.__getitem__ expanduser m k1 in
  let r2 := FileBufferManager.__getitem__ expanduser (fst r1) k2 in
  FileBufferManager.built expanduser (fst r2) /\
  key (snd r1) = k1 /\ key (snd r2) = k2 /\
  _base_path (snd r1) = expanduser (FileBufferManager.path m) /\
  _message_path (snd r1) = _message_path (snd r2) /\
  _manifest_path (snd r1) <> _manifest_path (snd r2).
Proof.
  intros Hb Hk. cbv zeta.
  destruct (getitem_built m k1 Hb) as (Hb1 & E1).
  destruct (getitem_built _ k2 Hb1) as (Hb2 & E2).
  assert (Hp : FileBufferManager.path
                 (fst (FileBufferManager.__getitem__ expanduser m k1))
               = FileBufferManager.path m)
    by (unfold FileBufferManager.__getitem__;
        now destruct (FileBufferManager.entries m !! k1)).
  rewrite Hp in E2. rewrite E1, E2.
  split; [exact Hb2|]. repeat split.
  intros E. apply manifest_path_inj in E; [|reflexivity]. now apply Hk.
Qed.

End Registry.

Lemma manager_buffers_by_key_witness :
  let m := FileBufferManager.__init__ "/var/receptor" in
  let r1 := FileBufferManager.__getitem__ id m "peer1" in
  let r2 := FileBufferManager.__getitem__ id (fst r1) "peer2" in
  FileBufferManager.built id m /\ "peer1"%string <> "peer2"%string /\
  FileBufferManager.built id (fst r2) /\
  key (snd r1) = "peer1"%string /\ key (snd r2) = "peer2"%string /\
  _base_path (snd r1) = id "/var/receptor"%string /\
  _message_path (snd r1) = _message_path (snd r2) /\
  _manifest_path (snd r1) <> _manifest_path (snd r2).
Proof.
  cbv zeta.
  assert (Hb : FileBufferManager.built id
                 (FileBufferManager.__init__ "/var/receptor"))
    by (intros k b H; cbn in H; rewrite lookup_empty in H; discriminate H).
  assert (Hk : "peer1"%string <> "peer2"%string) by discriminate.
  split; [exact Hb|]. split; [exact Hk|].
  exact (manager_buffers_by_key id (FileBufferManager.__init__ "/var/receptor")
           "peer1" "peer2" Hb Hk).
Defined.
